(** * The routing layer of neobolt (neobolt/impl/python/routing.py)

    A shallow embedding of [OrderedSet], [RoutingTable],
    [LeastConnectedLoadBalancingStrategy] and [RoutingConnectionPool],
    followed by the properties of the routing specification.

    Python objects that are shared and mutated in place (the three
    [OrderedSet]s of a routing table) live in a store and are named by
    locations; a method of the pool is a function from the pool's state
    to an outcome and a new state.  An exception does not undo the
    assignments made before it. *)

From Stdlib Require Import ZArith Ascii String List Lia.
From stdpp Require Import base decidable option list numbers strings.
Import ListNotations.

Local Open Scope string_scope.
Local Open Scope Z_scope.
Local Open Scope list_scope.

(** ** Python values received from the server *)

(** The values a routing record is made of.  A dict keeps its keys in
    insertion order. *)
#[warnings="-register-all"]
Inductive PyVal : Type :=
| PNone
| PBool (b : bool)
| PInt (z : Z)
| PStr (s : string)
| PList (l : list PyVal)
| PDict (d : list (string * PyVal)).

(** An address is the pair [(host, port)]. *)
Definition Address : Type := string * Z.

(** ** Exceptions *)

Inductive ErrorClass : Type :=
| KeyError
| TypeError
| ValueError
| IndexError
| OverflowError
| RoutingProtocolError
| ServiceUnavailable
| ConnectionExpired
| DatabaseUnavailableError
| NotALeaderError
| ForbiddenOnReadOnlyDatabaseError
| Subclass (name : string) (base : ErrorClass).

#[global] Instance ErrorClass_eq_dec : EqDecision ErrorClass.
Proof. solve_decision. Defined.

(** [issubclass c d]: [c] is [d] or derives from it. *)
Fixpoint issubclass (c d : ErrorClass) : bool :=
  if decide (c = d) then true
  else match c with
       | Subclass _ base => issubclass base d
       | _ => false
       end.

(** The argument of an exception: a literal text, or a template with
    the address that is formatted into it ([%r], [{!r}]). *)
Inductive Message : Type :=
| Text (s : string)
| Formatted (template : string) (a : Address).

Record Exc : Type := mkExc { exc_class : ErrorClass; exc_args : Message }.

(** [isinstance e (c1, c2, ...)], the test of an [except] clause. *)
Definition caught_by (e : Exc) (classes : list ErrorClass) : bool :=
  existsb (issubclass (exc_class e)) classes.

(** The result of running a piece of code: a value, an exception, or
    a loop that was cut off by its step budget. *)
Inductive Outcome (A : Type) : Type :=
| Return (a : A)
| Raise (e : Exc)
| OutOfFuel.
Arguments Return {A} a.
Arguments Raise {A} e.
Arguments OutOfFuel {A}.

Definition obind {A B} (o : Outcome A) (k : A -> Outcome B) : Outcome B :=
  match o with
  | Return a => k a
  | Raise e => Raise e
  | OutOfFuel => OutOfFuel
  end.

(** ** Subscripting and iterating a received value *)

Fixpoint dict_get (d : list (string * PyVal)) (k : string) : option PyVal :=
  match d with
  | [] => None
  | (k', v) :: d' => if decide (k' = k) then Some v else dict_get d' k
  end.

(** [d[k] = v] on a dict: an existing key keeps its position. *)
Fixpoint dict_set (d : list (string * PyVal)) (k : string) (v : PyVal)
  : list (string * PyVal) :=
  match d with
  | [] => [(k, v)]
  | (k', v') :: d' =>
      if decide (k' = k) then (k, v) :: d' else (k', v') :: dict_set d' k v
  end.

(** [dict(zip(fields, values))] *)
Fixpoint zip_with_fields (fields : list string) (values : list PyVal)
  : list (string * PyVal) :=
  match fields, values with
  | f :: fs, v :: vs => (f, v) :: zip_with_fields fs vs
  | _, _ => []
  end.

Definition dict_of_pairs (kvs : list (string * PyVal)) : list (string * PyVal) :=
  fold_left (fun d kv => dict_set d (fst kv) (snd kv)) kvs [].

(** [v[key]] with a string key. *)
Definition getitem (v : PyVal) (key : string) : Outcome PyVal :=
  match v with
  | PDict d =>
      match dict_get d key with
      | Some x => Return x
      | None => Raise (mkExc KeyError (Text key))
      end
  | _ => Raise (mkExc TypeError (Text "bad subscript"))
  end.

Fixpoint chars (s : string) : list PyVal :=
  match s with
  | EmptyString => []
  | String c s' => PStr (String c EmptyString) :: chars s'
  end.

(** [for x in v] *)
Definition py_iter (v : PyVal) : Outcome (list PyVal) :=
  match v with
  | PList l => Return l
  | PDict d => Return (map (fun kv => PStr (fst kv)) d)
  | PStr s => Return (chars s)
  | _ => Raise (mkExc TypeError (Text "object is not iterable"))
  end.

(** [v == s] for a string literal [s]. *)
Definition py_eq_str (v : PyVal) (s : string) : bool :=
  match v with
  | PStr s' => bool_decide (s' = s)
  | _ => false
  end.

(** ** OrderedSet: the keys of an [OrderedDict] *)

Abbreviation OrderedSet := (list Address) (only parsing).

(** [self._elements[element] = None] *)
Definition OrderedSet_add (s : OrderedSet) (element : Address) : OrderedSet :=
  if decide (element ∈ s) then s else s ++ [element].

(** [self._elements.update(OrderedDict.fromkeys(elements))] *)
Definition OrderedSet_update (s : OrderedSet) (elements : list Address) : OrderedSet :=
  fold_left OrderedSet_add elements s.

(** [OrderedDict.fromkeys(elements)] *)
Definition fromkeys (elements : list Address) : OrderedSet :=
  OrderedSet_update [] elements.

(** [del self._elements[element]]: [None] stands for [KeyError]. *)
Fixpoint OrderedDict_del (s : OrderedSet) (element : Address) : option OrderedSet :=
  match s with
  | [] => None
  | x :: s' =>
      if decide (x = element) then Some s'
      else match OrderedDict_del s' element with
           | Some r => Some (x :: r)
           | None => None
           end
  end.

Definition OrderedSet_discard (s : OrderedSet) (element : Address) : OrderedSet :=
  match OrderedDict_del s element with
  | Some s' => s'
  | None => s
  end.

Definition OrderedSet_remove (s : OrderedSet) (element : Address) : Outcome OrderedSet :=
  match OrderedDict_del s element with
  | Some s' => Return s'
  | None => Raise (mkExc ValueError (Formatted "%r" element))
  end.

(** ** Access modes *)

(** Modelled from the spec: the constants [READ_ACCESS] and
    [WRITE_ACCESS] of [neobolt.routing], whose module is not part of the
    sources at hand; the specification names the two symbols READ and
    WRITE. *)
Definition READ_ACCESS : string := "READ".
Definition WRITE_ACCESS : string := "WRITE".

(** [sys.maxsize] *)
Definition maxsize : Z := 2 ^ 63 - 1.

(** ** The external collaborators *)

(** A pooled connection: the address it is connected to and the class
    it raises when the transport breaks ([connection.Error]). *)
Record Connection : Type := mkConnection { address : Address; Error : ErrorClass }.

(** What happens inside [with self.acquire_direct(address) as cx] once
    the connection is there: a [ServiceUnavailable] is raised somewhere
    in the exchange, the server answers the procedure call with a
    failure carrying [code], or the result stream is drained into
    [rows] under the column names [fields]. *)
Inductive Session : Type :=
| Unavailable
| Failed (code : option string)
| Replied (fields : list string) (rows : list (list PyVal)).

(** The interface the routing layer consumes: the direct connection pool
    ([AbstractConnectionPool] in direct.py), the exchange on a connection
    and [SocketAddress.parse] (addressing.py).  [acquire_direct] answers
    [None] when it raises [ServiceUnavailable]. *)
Class Environment : Type := {
  DirectPool : Type;
  SocketAddress_parse : PyVal -> Outcome Address;
  acquire_direct : Address -> DirectPool -> option Connection * DirectPool;
  routing_session : Connection -> DirectPool -> Session * DirectPool;
  super_deactivate : Address -> DirectPool -> DirectPool;
  in_use_connection_count : Address -> DirectPool -> Z;
  connections : DirectPool -> list Address
}.

(** The calls made into the direct pool, oldest first. *)
Inductive Event : Type :=
| CallAcquireDirect (a : Address)
| CallDeactivate (a : Address).

(** ** State *)

(** A location of the store: the identity of a set object. *)
Abbreviation loc := nat (only parsing).

(** A routing table: its three role sets are references into the store. *)
Record RoutingTable : Type := mkRoutingTable {
  routers : loc;
  readers : loc;
  writers : loc;
  last_updated_time : Z;
  ttl : PyVal
}.

Record LeastConnectedLoadBalancingStrategy : Type := mkStrategy {
  _readers_offset : nat;
  _writers_offset : nat
}.

Section Routing.
Context `{Env : Environment}.

(** The state of a [RoutingConnectionPool] and of the objects it
    reaches: the store of [OrderedSet] objects, the reading of
    [perf_counter], the attributes of the pool, the state of the direct
    pool underneath and the log of the calls made into it. *)
Record State : Type := mkState {
  heap : list OrderedSet;
  clock : Z;
  initial_address : Address;
  routing_table : RoutingTable;
  missing_writer : bool;
  load_balancing_strategy : LeastConnectedLoadBalancingStrategy;
  direct : DirectPool;
  trace : list Event
}.

Definition set_heap (h : list OrderedSet) (s : State) : State :=
  mkState h (clock s) (initial_address s) (routing_table s) (missing_writer s)
          (load_balancing_strategy s) (direct s) (trace s).
Definition set_routing_table (t : RoutingTable) (s : State) : State :=
  mkState (heap s) (clock s) (initial_address s) t (missing_writer s)
          (load_balancing_strategy s) (direct s) (trace s).
Definition set_missing_writer (b : bool) (s : State) : State :=
  mkState (heap s) (clock s) (initial_address s) (routing_table s) b
          (load_balancing_strategy s) (direct s) (trace s).
Definition set_load_balancing_strategy (l : LeastConnectedLoadBalancingStrategy)
  (s : State) : State :=
  mkState (heap s) (clock s) (initial_address s) (routing_table s) (missing_writer s)
          l (direct s) (trace s).
Definition set_direct (d : DirectPool) (s : State) : State :=
  mkState (heap s) (clock s) (initial_address s) (routing_table s) (missing_writer s)
          (load_balancing_strategy s) d (trace s).
Definition log_event (e : Event) (s : State) : State :=
  mkState (heap s) (clock s) (initial_address s) (routing_table s) (missing_writer s)
          (load_balancing_strategy s) (direct s) (trace s ++ [e]).

(** A method: from a state to an outcome and the state it leaves. *)
Definition M (A : Type) : Type := State -> Outcome A * State.

Definition ret {A} (a : A) : M A := fun s => (Return a, s).
Definition raise {A} (e : Exc) : M A := fun s => (Raise e, s).
Definition bind {A B} (m : M A) (k : A -> M B) : M B :=
  fun s =>
    match m s with
    | (Return a, s') => k a s'
    | (Raise e, s') => (Raise e, s')
    | (OutOfFuel, s') => (OutOfFuel, s')
    end.
Definition lift {A} (o : Outcome A) : M A := fun s => (o, s).
Definition gets {A} (f : State -> A) : M A := fun s => (Return (f s), s).
Definition modify (f : State -> State) : M unit := fun s => (Return tt, f s).

(** [try: m except classes: handler] *)
Definition try_except {A} (m : M A) (classes : list ErrorClass) (handler : Exc -> M A)
  : M A :=
  fun s =>
    match m s with
    | (Raise e, s') => if caught_by e classes then handler e s' else (Raise e, s')
    | r => r
    end.

Notation "x <- m ;; k" := (bind m (fun x => k))
  (at level 100, m at next level, right associativity).
Notation "m ;;; k" := (bind m (fun _ => k))
  (at level 100, right associativity).

(** *** The store of OrderedSet objects *)

(** The elements of the set object at [l], in insertion order. *)
Definition elements (l : loc) (s : State) : OrderedSet :=
  default [] (heap s !! l).

(** [OrderedSet(elements)]: a new object. *)
Definition OrderedSet_new (elems : list Address) : M loc :=
  fun s => (Return (length (heap s)), set_heap (heap s ++ [fromkeys elems]) s).

Definition store (l : loc) (v : OrderedSet) : M unit :=
  modify (fun s => set_heap (<[l := v]> (heap s)) s).

(** [len(self)] *)
Definition OrderedSet_len (l : loc) : M nat := gets (fun s => length (elements l s)).

(** [self[index]] *)
Definition OrderedSet_getitem (l : loc) (index : nat) : M Address :=
  fun s =>
    match elements l s !! index with
    | Some a => (Return a, s)
    | None => (Raise (mkExc IndexError (Text "list index out of range")), s)
    end.

(** [self.discard(element)] *)
Definition discard (l : loc) (element : Address) : M unit :=
  cur <- gets (elements l) ;;
  store l (OrderedSet_discard cur element).

(** [self.replace(elements)] where [elements] is itself a set object:
    the receiver is cleared first, the argument is read afterwards. *)
Definition replace (l : loc) (elems : loc) : M unit :=
  store l [] ;;;
  src <- gets (elements elems) ;;
  cur <- gets (elements l) ;;
  store l (OrderedSet_update cur (fromkeys src)).

(** [self.timer()] *)
Definition timer : M Z := gets clock.

(** ** RoutingTable *)

(** The inner loop of [parse_routing_info]:
    [addresses.append(SocketAddress.parse(address, DEFAULT_PORT))]. *)
Fixpoint parse_addresses (items : list PyVal) : Outcome (list Address) :=
  match items with
  | [] => Return []
  | item :: rest =>
      obind (SocketAddress_parse item) (fun a =>
      obind (parse_addresses rest) (fun r => Return (a :: r)))
  end.

(** The loop [for server in servers], on the three lists built so far. *)
Fixpoint walk_servers (servers : list PyVal) (routers readers writers : list Address)
  : Outcome (list Address * list Address * list Address) :=
  match servers with
  | [] => Return (routers, readers, writers)
  | server :: rest =>
      obind (getitem server "role") (fun role =>
      obind (getitem server "addresses") (fun field =>
      obind (py_iter field) (fun items =>
      obind (parse_addresses items) (fun addresses =>
        if py_eq_str role "ROUTE" then
          walk_servers rest (routers ++ addresses) readers writers
        else if py_eq_str role "READ" then
          walk_servers rest routers (readers ++ addresses) writers
        else if py_eq_str role "WRITE" then
          walk_servers rest routers readers (writers ++ addresses)
        else walk_servers rest routers readers writers))))
  end.

(** The body of the [try] in [parse_routing_info]. *)
Definition parse_record (record : PyVal)
  : Outcome (list Address * list Address * list Address * PyVal) :=
  obind (getitem record "servers") (fun servers =>
  obind (py_iter servers) (fun server_list =>
  obind (walk_servers server_list [] [] []) (fun roles =>
  obind (getitem record "ttl") (fun ttl => Return (roles, ttl))))).

(** [RoutingTable.__init__] *)
Definition RoutingTable_init (routers readers writers : list Address) (ttl : PyVal)
  : M RoutingTable :=
  r <- OrderedSet_new routers ;;
  rd <- OrderedSet_new readers ;;
  w <- OrderedSet_new writers ;;
  now <- timer ;;
  ret (mkRoutingTable r rd w now ttl).

Definition parse_routing_info (records : list PyVal) : M RoutingTable :=
  match records with
  | [record] =>
      match parse_record record with
      | Return (routers, readers, writers, ttl) =>
          RoutingTable_init routers readers writers ttl
      | Raise e =>
          if caught_by e [KeyError; TypeError]
          then raise (mkExc RoutingProtocolError (Text "Cannot parse routing info"))
          else raise e
      | OutOfFuel => lift OutOfFuel
      end
  | _ => raise (mkExc RoutingProtocolError (Text "Expected exactly one record"))
  end.

(** What [is_fresh] hands back: the value of
    [not expired and self.routers and has_server_for_mode] is [False],
    the routers set itself (when it is empty) or a boolean. *)
Inductive Freshness : Type :=
| FreshBool (b : bool)
| FreshSet (l : loc).

(** The truth value of a result of [is_fresh]. *)
Definition truth (v : Freshness) (s : State) : bool :=
  match v with
  | FreshBool b => b
  | FreshSet l => negb (Nat.eqb (length (elements l s)) 0)
  end.

(** The least positive integer that has no float: converting an
    integer [z] to a float succeeds exactly when [|z| < float_limit]. *)
Definition float_limit : Z := 2 ^ 1024 - 2 ^ 970.

(** [self.last_updated_time + self.ttl].  The left operand is a reading
    of [perf_counter], a float, so an integer [ttl] is converted to a
    float first, which raises [OverflowError] when it is too large; a
    value that is no number raises [TypeError].  Clock readings
    themselves are taken as exact numbers of ticks. *)
Definition add_ttl (t : Z) (ttl : PyVal) : Outcome Z :=
  match ttl with
  | PInt z =>
      if Z.abs z <? float_limit then Return (t + z)
      else Raise (mkExc OverflowError (Text "int too large to convert to float"))
  | PBool b => Return (t + (if b then 1 else 0))
  | _ => Raise (mkExc TypeError (Text "unsupported operand type(s) for +"))
  end.

Definition nonempty (l : loc) (s : State) : bool :=
  negb (Nat.eqb (length (elements l s)) 0).

Definition is_fresh (self : RoutingTable) (access_mode : string) : M Freshness :=
  deadline <- lift (add_ttl (last_updated_time self) (ttl self)) ;;
  now <- timer ;;
  let expired := deadline <=? now in
  has_readers <- gets (nonempty (readers self)) ;;
  has_writers <- gets (nonempty (writers self)) ;;
  let has_server_for_mode :=
    (bool_decide (access_mode = READ_ACCESS) && has_readers)
    || (bool_decide (access_mode = WRITE_ACCESS) && has_writers) in
  has_routers <- gets (nonempty (routers self)) ;;
  if expired then ret (FreshBool false)
  else if has_routers then ret (FreshBool has_server_for_mode)
  else ret (FreshSet (routers self)).

(** [self.routing_table.update(new_routing_table)] on the pool's table. *)
Definition RoutingTable_update (new_routing_table : RoutingTable) : M unit :=
  self <- gets routing_table ;;
  replace (routers self) (routers new_routing_table) ;;;
  replace (readers self) (readers new_routing_table) ;;;
  replace (writers self) (writers new_routing_table) ;;;
  now <- timer ;;
  modify (fun s =>
    let t := routing_table s in
    set_routing_table
      (mkRoutingTable (routers t) (readers t) (writers t) now (ttl t)) s) ;;;
  modify (fun s =>
    let t := routing_table s in
    set_routing_table
      (mkRoutingTable (routers t) (readers t) (writers t) (last_updated_time t)
                      (ttl new_routing_table)) s).

(** [self.servers()] *)
Definition servers (self : RoutingTable) (s : State) : list Address :=
  elements (routers self) s ++ elements (writers self) s ++ elements (readers self) s.

(** ** LeastConnectedLoadBalancingStrategy *)

(** The [while True] loop of [_select], one iteration per unit of fuel. *)
Fixpoint _select_loop (fuel : nat) (addresses : loc)
  (num_addresses start_index index : nat)
  (least_connected_address : option Address) (least_in_use_connections : Z)
  : M (option Address) :=
  match fuel with
  | O => lift OutOfFuel
  | S fuel' =>
      address <- OrderedSet_getitem addresses index ;;
      let index := ((index + 1) mod num_addresses)%nat in
      in_use_connections <- gets (fun s => in_use_connection_count address (direct s)) ;;
      let best :=
        if in_use_connections <? least_in_use_connections
        then (Some address, in_use_connections)
        else (least_connected_address, least_in_use_connections) in
      if Nat.eqb index start_index then ret (fst best)
      else _select_loop fuel' addresses num_addresses start_index index
                        (fst best) (snd best)
  end.

Definition _select (fuel : nat) (offset : nat) (addresses : loc) : M (option Address) :=
  num_addresses <- OrderedSet_len addresses ;;
  if Nat.eqb num_addresses 0 then ret None
  else
    let start_index := (offset mod num_addresses)%nat in
    _select_loop fuel addresses num_addresses start_index start_index None maxsize.

Definition select_reader (fuel : nat) (known_readers : loc) : M (option Address) :=
  offset <- gets (fun s => _readers_offset (load_balancing_strategy s)) ;;
  a <- _select fuel offset known_readers ;;
  modify (fun s =>
    let lb := load_balancing_strategy s in
    set_load_balancing_strategy
      (mkStrategy (_readers_offset lb + 1)%nat (_writers_offset lb)) s) ;;;
  ret a.

Definition select_writer (fuel : nat) (known_writers : loc) : M (option Address) :=
  offset <- gets (fun s => _writers_offset (load_balancing_strategy s)) ;;
  a <- _select fuel offset known_writers ;;
  modify (fun s =>
    let lb := load_balancing_strategy s in
    set_load_balancing_strategy
      (mkStrategy (_readers_offset lb) (_writers_offset lb + 1)%nat) s) ;;;
  ret a.

(** ** RoutingConnectionPool *)

(** [try: m except c1: h1 except c2: h2 ...]: the first clause whose
    classes match handles the exception; what a handler raises is not
    offered to the other clauses. *)
Fixpoint pick_clause {A} (e : Exc) (clauses : list (list ErrorClass * (Exc -> M A)))
  : option (Exc -> M A) :=
  match clauses with
  | [] => None
  | (classes, handler) :: rest =>
      if caught_by e classes then Some handler else pick_clause e rest
  end.

Definition try_clauses {A} (m : M A) (clauses : list (list ErrorClass * (Exc -> M A)))
  : M A :=
  fun s =>
    match m s with
    | (Raise e, s') =>
        match pick_clause e clauses with
        | Some handler => handler e s'
        | None => (Raise e, s')
        end
    | r => r
    end.

(** [self.acquire_direct(address)], logged. *)
Definition call_acquire_direct (a : Address) : M Connection :=
  fun s =>
    let s1 := log_event (CallAcquireDirect a) s in
    match acquire_direct a (direct s1) with
    | (Some cx, d) => (Return cx, set_direct d s1)
    | (None, d) =>
        (Raise (mkExc ServiceUnavailable (Text "Failed to establish connection")),
         set_direct d s1)
    end.

(** [super(RoutingConnectionPool, self).deactivate(address)], logged. *)
Definition call_super_deactivate (a : Address) : M unit :=
  modify (fun s =>
    set_direct (super_deactivate a (direct s)) (log_event (CallDeactivate a) s)).

Definition deactivate (a : Address) : M unit :=
  t <- gets routing_table ;;
  discard (routers t) a ;;;
  t <- gets routing_table ;;
  discard (readers t) a ;;;
  t <- gets routing_table ;;
  discard (writers t) a ;;;
  call_super_deactivate a.

Definition remove_writer (a : Address) : M unit :=
  t <- gets routing_table ;;
  discard (writers t) a.

(** The callback [fail] of [fetch_routing_info]. *)
Definition fail (a : Address) (code : option string) : Exc :=
  if bool_decide (code = Some "Neo.ClientError.Procedure.ProcedureNotFound")
  then mkExc RoutingProtocolError (Formatted "Server {!r} does not support routing" a)
  else mkExc RoutingProtocolError (Formatted "Routing support broken on server {!r}" a).

Definition run_session (cx : Connection) : M Session :=
  fun s =>
    let '(r, d) := routing_session cx (direct s) in (Return r, set_direct d s).

Definition fetch_routing_info (a : Address) : M (option (list PyVal)) :=
  try_clauses
    (cx <- call_acquire_direct a ;;
     r <- run_session cx ;;
     match r with
     | Unavailable =>
         raise (mkExc ServiceUnavailable (Text "Failed to read from connection"))
     | Failed code => raise (fail a code)
     | Replied fields rows =>
         ret (Some (map (fun values => PDict (dict_of_pairs (zip_with_fields fields values)))
                        rows))
     end)
    [ ([RoutingProtocolError],
       fun error => raise (mkExc ServiceUnavailable (exc_args error)));
      ([ServiceUnavailable],
       fun _ => deactivate a ;;; ret None) ].

Definition fetch_routing_table (a : Address) : M (option RoutingTable) :=
  new_routing_info <- fetch_routing_info a ;;
  match new_routing_info with
  | None => ret None
  | Some info =>
      new_routing_table <- parse_routing_info info ;;
      num_routers <- OrderedSet_len (routers new_routing_table) ;;
      num_readers <- OrderedSet_len (readers new_routing_table) ;;
      num_writers <- OrderedSet_len (writers new_routing_table) ;;
      modify (set_missing_writer (Nat.eqb num_writers 0)) ;;;
      if Nat.eqb num_routers 0 then
        raise (mkExc RoutingProtocolError
                     (Formatted "No routing servers returned from server %r" a))
      else if Nat.eqb num_readers 0 then
        raise (mkExc RoutingProtocolError
                     (Formatted "No read servers returned from server %r" a))
      else ret (Some new_routing_table)
  end.

Fixpoint update_routing_table_from (routers_to_try : list Address) : M bool :=
  match routers_to_try with
  | [] => ret false
  | router :: rest =>
      new_routing_table <- fetch_routing_table router ;;
      match new_routing_table with
      | Some t => RoutingTable_update t ;;; ret true
      | None => update_routing_table_from rest
      end
  end.

Definition update_routing_table : M unit :=
  existing_routers <- gets (fun s => elements (routers (routing_table s)) s) ;;
  mw <- gets missing_writer ;;
  initial <- gets initial_address ;;
  done_first <-
    (if mw then update_routing_table_from [initial] else ret false) ;;
  let has_tried_initial_routers := mw in
  if done_first then ret tt
  else
    done_existing <- update_routing_table_from existing_routers ;;
    if done_existing then ret tt
    else
      initial <- gets initial_address ;;
      done_last <-
        (if negb has_tried_initial_routers
            && negb (bool_decide (initial ∈ existing_routers))
         then update_routing_table_from [initial] else ret false) ;;
      if done_last then ret tt
      else raise (mkExc ServiceUnavailable
                        (Text "Unable to retrieve routing information")).

(** [for address in list(self.connections): ...] *)
Fixpoint deactivate_unknown (addresses known : list Address) : M unit :=
  match addresses with
  | [] => ret tt
  | a :: rest =>
      (if bool_decide (a ∈ known) then ret tt else call_super_deactivate a) ;;;
      deactivate_unknown rest known
  end.

Definition update_connection_pool : M unit :=
  known <- gets (fun s => servers (routing_table s) s) ;;
  live <- gets (fun s => connections (direct s)) ;;
  deactivate_unknown live known.

(** The refresh lock is not modelled: one caller runs at a time. *)
Definition ensure_routing_table_is_fresh (access_mode : string) : M bool :=
  t <- gets routing_table ;;
  f <- is_fresh t access_mode ;;
  fresh <- gets (truth f) ;;
  if fresh then ret false
  else
    t <- gets routing_table ;;
    f <- is_fresh t access_mode ;;
    fresh <- gets (truth f) ;;
    if fresh then
      (if bool_decide (access_mode = READ_ACCESS) then
         t <- gets routing_table ;;
         fw <- is_fresh t WRITE_ACCESS ;;
         w <- gets (truth fw) ;;
         modify (set_missing_writer (negb w))
       else ret tt) ;;;
      ret false
    else
      update_routing_table ;;;
      update_connection_pool ;;;
      ret true.

(** The [while True] loop of [acquire], one iteration per unit of fuel. *)
Fixpoint acquire_loop (fuel : nat) (server_selector : loc -> M (option Address))
  (server_list : loc) (access_mode : string) : M Connection :=
  match fuel with
  | O => lift OutOfFuel
  | S fuel' =>
      selected <- server_selector server_list ;;
      match selected with
      | None =>
          raise (mkExc ConnectionExpired
                   (Text ("Failed to obtain connection towards '" ++ access_mode
                          ++ "' server.")))
      | Some a =>
          try_clauses
            (connection <- call_acquire_direct a ;;
             ret (mkConnection (address connection) ConnectionExpired))
            [ ([ServiceUnavailable],
               fun _ => deactivate a ;;;
                        acquire_loop fuel' server_selector server_list access_mode) ]
      end
  end.

Definition acquire (fuel : nat) (access_mode : option string) : M Connection :=
  let access_mode := default WRITE_ACCESS access_mode in
  if bool_decide (access_mode = READ_ACCESS) then
    server_list <- gets (fun s => readers (routing_table s)) ;;
    ensure_routing_table_is_fresh access_mode ;;;
    acquire_loop fuel (select_reader fuel) server_list access_mode
  else if bool_decide (access_mode = WRITE_ACCESS) then
    server_list <- gets (fun s => writers (routing_table s)) ;;
    ensure_routing_table_is_fresh access_mode ;;;
    acquire_loop fuel (select_writer fuel) server_list access_mode
  else
    raise (mkExc ValueError (Text ("Unsupported access mode " ++ access_mode))).

Definition handle (error : Exc) (connection : Connection) : M unit :=
  let error_class := exc_class error in
  if bool_decide (error_class ∈ [ConnectionExpired; ServiceUnavailable;
                                 DatabaseUnavailableError]) then
    deactivate (address connection)
  else if bool_decide (error_class ∈ [NotALeaderError;
                                      ForbiddenOnReadOnlyDatabaseError]) then
    remove_writer (address connection)
  else ret tt.

End Routing.

Arguments State : clear implicits.
Arguments State {Env}.

(** ** A concrete environment, for running the model *)

Module Sample.

(** [host:port] split at the last colon. *)
Fixpoint rsplit_colon (s : string) : string * option string :=
  match s with
  | EmptyString => (EmptyString, None)
  | String c r =>
      match rsplit_colon r with
      | (h, Some p) => (String c h, Some p)
      | (h, None) =>
          if bool_decide (c = ":"%char) then (EmptyString, Some r)
          else (String c h, None)
      end
  end.

Fixpoint decimal (s : string) (acc : Z) : option Z :=
  match s with
  | EmptyString => Some acc
  | String c r =>
      let d := Z.of_nat (Ascii.nat_of_ascii c) - 48 in
      if (0 <=? d) && (d <=? 9) then decimal r (10 * acc + d) else None
  end.

Definition DEFAULT_PORT : Z := 7687.

(** A stand-in for [SocketAddress.parse(address, DEFAULT_PORT)] on
    texts of the form [host] or [host:port] with a lower-case host. *)
Definition parse_address (v : PyVal) : Outcome Address :=
  match v with
  | PStr s =>
      match rsplit_colon s with
      | (h, None) => Return (h, DEFAULT_PORT)
      | (h, Some p) =>
          match decimal p 0 with
          | Some 0 => Return (h, DEFAULT_PORT)
          | Some n => Return (h, n)
          | None => Raise (mkExc ValueError (Text "Port could not be cast to integer"))
          end
      end
  | _ => Raise (mkExc ValueError (Text "not an address text"))
  end.

(** A direct pool reduced to what the routing layer can observe of it:
    the addresses that refuse connections, what each router answers to
    the routing procedure, the in-use count per address and the
    addresses with live connections. *)
Record Net : Type := mkNet {
  down : list Address;
  answers : list (Address * Session);
  in_use : list (Address * Z);
  live : list Address
}.

Fixpoint assoc {B} (l : list (Address * B)) (a : Address) : option B :=
  match l with
  | [] => None
  | (k, v) :: r => if decide (k = a) then Some v else assoc r a
  end.

#[global] Instance env : Environment := {|
  DirectPool := Net;
  SocketAddress_parse := parse_address;
  acquire_direct := fun a d =>
    if bool_decide (a ∈ down d) then (None, d)
    else (Some (mkConnection a ServiceUnavailable), d);
  routing_session := fun cx d => (default Unavailable (assoc (answers d) (address cx)), d);
  super_deactivate := fun a d =>
    mkNet (down d) (answers d) (in_use d) (filter (λ x, x ≠ a) (live d));
  in_use_connection_count := fun a d => default 0 (assoc (in_use d) a);
  connections := live
|}.

Definition addr (port : Z) : Address := ("127.0.0.1", port).

(** The reply of a router: one row under the columns [ttl], [servers]. *)
Definition server (role : string) (addresses : list string) : PyVal :=
  PDict [("role", PStr role); ("addresses", PList (map PStr addresses))].

Definition record (ttl : PyVal) (servers : list PyVal) : PyVal :=
  PDict [("ttl", ttl); ("servers", PList servers)].

Definition reply (ttl : PyVal) (servers : list PyVal) : Session :=
  Replied ["ttl"; "servers"] [[ttl; PList servers]].

(** A pool as [RoutingConnectionPool.__init__] leaves it, over the
    given seed routers and network. *)
Definition pool (initial : Address) (seed : list Address) (mw : bool) (net : Net)
  : State :=
  mkState [fromkeys seed; []; []] 0 initial
          (mkRoutingTable 0%nat 1%nat 2%nat 0 (PInt 0)) mw (mkStrategy 0 0) net [].

Definition VALID_ROUTING_RECORD : PyVal :=
  record (PInt 300)
    [ server "ROUTE" ["127.0.0.1:9001"; "127.0.0.1:9002"; "127.0.0.1:9003"];
      server "READ" ["127.0.0.1:9004"; "127.0.0.1:9005"];
      server "WRITE" ["127.0.0.1:9006"] ].

Definition quiet : Net := mkNet [] [] [] [].

(** A pool whose table was refreshed from [VALID_ROUTING_RECORD] at
    time 0. *)
Definition routed (initial : Address) (mw : bool) (net : Net) : State :=
  mkState [[addr 9001; addr 9002; addr 9003]; [addr 9004; addr 9005]; [addr 9006]]
          0 initial (mkRoutingTable 0%nat 1%nat 2%nat 0 (PInt 300)) mw
          (mkStrategy 0 0) net [].

End Sample.

(** ** Vocabulary of the statements *)


(** [v] can be iterated: a list, a dict or a text. *)
Definition iterable (v : PyVal) : bool :=
  match v with
  | PList _ | PDict _ | PStr _ => true
  | _ => false
  end.

(** [sub] occurs in [s]. *)
Definition contains (s sub : string) : Prop :=
  exists pre post, s = (pre ++ sub ++ post)%string.

Section Invariants.
Context `{Env : Environment}.

(** The three role sets of [t] are three different objects of the store. *)
Definition live_table (t : RoutingTable) (s : State) : Prop :=
  (routers t < length (heap s))%nat
  /\ (readers t < length (heap s))%nat
  /\ (writers t < length (heap s))%nat
  /\ routers t <> readers t /\ routers t <> writers t /\ readers t <> writers t.

(** A well-formed state: every set object holds distinct elements, and
    the pool's table owns three different objects, as
    [RoutingTable.__init__] creates them. *)
Definition wf (s : State) : Prop :=
  Forall NoDup (heap s) /\ live_table (routing_table s) s.

(** [t'] refers to the same three set objects as [t]. *)
Definition same_sets (t t' : RoutingTable) : Prop :=
  routers t' = routers t /\ readers t' = readers t /\ writers t' = writers t.

(** What every method of the pool maintains from the state it starts
    in to the state it leaves, whatever its outcome. *)
Definition evolves (s s' : State) : Prop :=
  (length (heap s) <= length (heap s'))%nat
  /\ same_sets (routing_table s) (routing_table s')
  /\ (Forall NoDup (heap s) -> Forall NoDup (heap s'))
  /\ initial_address s' = initial_address s
  /\ clock s' = clock s
  /\ trace s `prefix_of` trace s'.

Definition frame {A} (m : M A) : Prop :=
  forall s r s', m s = (r, s') -> evolves s s'.

End Invariants.

(** The classes [handle] reacts to. *)
Definition handled_classes : list ErrorClass :=
  [ConnectionExpired; ServiceUnavailable; DatabaseUnavailableError;
   NotALeaderError; ForbiddenOnReadOnlyDatabaseError].

(** The scan of [_select] over the addresses in the order they are
    read: an address replaces the best one so far only when its count
    is strictly smaller. *)
Fixpoint least_connected (count : Address -> Z) (walk : list Address)
  (best : option Address) (least : Z) : option Address :=
  match walk with
  | [] => best
  | a :: rest =>
      if count a <? least then least_connected count rest (Some a) (count a)
      else least_connected count rest best least
  end.

(** The two calls a failed attempt on [a] makes into the direct pool. *)
Definition failed_attempt (a : Address) : list Event :=
  [CallAcquireDirect a; CallDeactivate a].

(** The message of the [ConnectionExpired] raised by [acquire]. *)
Definition expired_message (access_mode : string) : string :=
  ("Failed to obtain connection towards '" ++ access_mode ++ "' server.")%string.

Section Outcomes.
Context `{Env : Environment}.

(** A selector that, given fuel for sets of up to [F] addresses,
    returns none or a member of the set it is given and touches nothing
    but the strategy's offsets. *)
Definition selector_ok (F : nat) (sel : loc -> M (option Address)) : Prop :=
  forall sl s,
    (length (elements sl s) <= F)%nat ->
    exists r s1,
      sel sl s = (Return r, s1)
      /\ heap s1 = heap s
      /\ routing_table s1 = routing_table s
      /\ trace s1 = trace s
      /\ (forall a, r = Some a -> a ∈ elements sl s).

(** How the main loop of [acquire] ends, from the state [s] in which it
    starts: [failed] lists, in order, the addresses whose direct
    acquisition raised [ServiceUnavailable]. *)
Definition acquire_outcome (access_mode : string) (s : State)
  (r : Outcome Connection) (s' : State) (failed : list Address) : Prop :=
  routing_table s' = routing_table s
  /\ (forall l x, x ∈ elements l s' -> x ∈ elements l s)
  /\ (forall a, a ∈ failed ->
        (a ∉ elements (routers (routing_table s)) s')
        /\ (a ∉ elements (readers (routing_table s)) s')
        /\ (a ∉ elements (writers (routing_table s)) s'))
  /\ ((exists cx a,
          r = Return cx /\ Error cx = ConnectionExpired
          /\ trace s' = trace s ++ flat_map failed_attempt failed
                                ++ [CallAcquireDirect a])
      \/ (r = Raise (mkExc ConnectionExpired (Text (expired_message access_mode)))
          /\ trace s' = trace s ++ flat_map failed_attempt failed)).

End Outcomes.

(** The set objects of [new] are none of the set objects of [t]. *)
Definition separate (new t : RoutingTable) : Prop :=
  forall l l',
    l ∈ [routers new; readers new; writers new] ->
    l' ∈ [routers t; readers t; writers t] -> l <> l'.






(** An outcome that the [except (KeyError, TypeError)] clause of
    [parse_routing_info] lets through or converts: a value, or an
    exception of one of the two classes. *)
Definition quiet {A} (o : Outcome A) : Prop :=
  match o with
  | Return _ => True
  | Raise e => caught_by e [KeyError; TypeError] = true
  | OutOfFuel => False
  end.

(** * Properties *)

Section Facts.
Context `{Env : Environment}.

(** ** The store *)

Lemma elements_set_heap (h : list OrderedSet) (s : State) (l : loc) :
  elements l (set_heap h s) = default [] (h !! l).
Proof. reflexivity. Qed.

(** A successful parse allocates the three role sets at the end of the
    store, stamps the table with the clock and keeps the [ttl] value as
    received. *)
Lemma parse_routing_info_Return (records : list PyVal) (s s1 : State) (t : RoutingTable) :
  parse_routing_info records s = (Return t, s1) ->
  exists record rs rd ws v,
    records = [record]
    /\ parse_record record = Return (rs, rd, ws, v)
    /\ t = mkRoutingTable (length (heap s)) (S (length (heap s)))
                          (S (S (length (heap s)))) (clock s) v
    /\ s1 = set_heap (heap s ++ [fromkeys rs; fromkeys rd; fromkeys ws]) s.
Proof.
  unfold parse_routing_info.
  destruct records as [|record [|? ?]]; try (cbn; discriminate).
  destruct (parse_record record) as [[[[rs rd] ws] v]|e|] eqn:Hrec;
    try (cbn; discriminate).
  - cbn. intros [= <- <-]. exists record, rs, rd, ws, v.
    split; [reflexivity|]. split; [exact Hrec|]. split.
    + f_equal; rewrite ?length_app; cbn; lia.
    + unfold set_heap; cbn. f_equal. rewrite <- !app_assoc. reflexivity.
  - destruct (caught_by e _); cbn; discriminate.
Qed.



Lemma add_ttl_int (t z : Z) :
  Z.abs z < float_limit -> add_ttl t (PInt z) = Return (t + z).
Proof.
  intros H. unfold add_ttl. apply Z.ltb_lt in H. rewrite H. reflexivity.
Qed.

(** [is_fresh] on a table whose [ttl] is an integer that has a float: it
    reads the clock and the three sets, and changes nothing. *)
Lemma is_fresh_int (t : RoutingTable) (mode : string) (s : State) (z : Z) :
  ttl t = PInt z ->
  Z.abs z < float_limit ->
  exists f,
    is_fresh t mode s = (Return f, s)
    /\ truth f s =
         negb (last_updated_time t + z <=? clock s)
         && nonempty (routers t) s
         && ((bool_decide (mode = READ_ACCESS) && nonempty (readers t) s)
             || (bool_decide (mode = WRITE_ACCESS) && nonempty (writers t) s)).
Proof.
  intros Httl Hz. unfold is_fresh, bind, lift, timer, gets, ret.
  rewrite Httl, (add_ttl_int _ _ Hz).
  destruct (last_updated_time t + z <=? clock s) eqn:Hexp; cbn.
  - eexists; split; [reflexivity|]. reflexivity.
  - destruct (nonempty (routers t) s) eqn:Hr; cbn.
    + eexists; split; [reflexivity|]. reflexivity.
    + eexists; split; [reflexivity|]. cbn. exact Hr.
Qed.

(** C1, as amended.  Right after a successful parse whose [ttl] is an
    integer that can be added to the float clock ([|ttl| < float_limit]),
    [is_fresh(READ)] is true exactly when the routers and the readers
    are non-empty and [ttl > 0]; [is_fresh(WRITE)] likewise with the
    writers.  The call leaves the state as it was. *)
Theorem parse_then_is_fresh (records : list PyVal) (s s1 : State) (t : RoutingTable) (z : Z) :
  parse_routing_info records s = (Return t, s1) ->
  ttl t = PInt z ->
  Z.abs z < float_limit ->
  exists fr fw,
    is_fresh t READ_ACCESS s1 = (Return fr, s1)
    /\ truth fr s1 = nonempty (routers t) s1 && nonempty (readers t) s1 && (0 <? z)
    /\ is_fresh t WRITE_ACCESS s1 = (Return fw, s1)
    /\ truth fw s1 = nonempty (routers t) s1 && nonempty (writers t) s1 && (0 <? z).
Proof.
  intros Hparse Httl Hz.
  destruct (parse_routing_info_Return _ _ _ _ Hparse)
    as (record & rs & rd & ws & v & -> & _ & Ht & Hs1).
  assert (Hclock : last_updated_time t = clock s1) by (subst; reflexivity).
  destruct (is_fresh_int t READ_ACCESS s1 z Httl Hz) as (fr & Hfr & Htr).
  destruct (is_fresh_int t WRITE_ACCESS s1 z Httl Hz) as (fw & Hfw & Htw).
  exists fr, fw. rewrite Hfr, Hfw, Htr, Htw, Hclock.
  replace (clock s1 + z <=? clock s1) with (negb (0 <? z))
    by (destruct (Z.ltb_spec 0 z), (Z.leb_spec (clock s1 + z) (clock s1)); cbn; lia).
  rewrite negb_involutive.
  repeat split; cbn;
    destruct (0 <? z), (nonempty (routers t) s1), (nonempty (readers t) s1),
             (nonempty (writers t) s1); reflexivity.
Qed.

End Facts.

(** C1, witness: the valid record of the test suite. *)
Lemma parse_then_is_fresh_witness :
  exists t s1 fr fw,
    parse_routing_info [Sample.VALID_ROUTING_RECORD]
      (Sample.pool (Sample.addr 7687) [] false Sample.quiet) = (Return t, s1)
    /\ ttl t = PInt 300
    /\ Z.abs 300 < float_limit
    /\ is_fresh t READ_ACCESS s1 = (Return fr, s1)
    /\ truth fr s1 = true
    /\ is_fresh t WRITE_ACCESS s1 = (Return fw, s1)
    /\ truth fw s1 = true.
Proof.
  pose (s0 := Sample.pool (Sample.addr 7687) [] false Sample.quiet).
  destruct (parse_routing_info [Sample.VALID_ROUTING_RECORD] s0) as [r s1] eqn:Hp.
  assert (Hr : exists t, r = Return t /\ ttl t = PInt 300
               /\ nonempty (routers t) s1 && nonempty (readers t) s1 = true
               /\ nonempty (routers t) s1 && nonempty (writers t) s1 = true).
  { vm_compute in Hp. injection Hp as <- <-. eexists; split; [reflexivity|].
    vm_compute. auto. }
  destruct Hr as (t & -> & Httl & Hrd & Hwr).
  assert (Hz : Z.abs 300 < float_limit) by (vm_compute; reflexivity).
  destruct (parse_then_is_fresh _ _ _ _ 300 Hp Httl Hz)
    as (fr & fw & H1 & H2 & H3 & H4).
  exists t, s1, fr, fw. fold s0. rewrite Hp.
  repeat split; try assumption.
  - rewrite H2, Hrd. reflexivity.
  - rewrite H4, Hwr. reflexivity.
Defined.

(** C1, as stated, fails: a record that lists readers and a positive
    [ttl] but no routers parses, and the table is not fresh for READ. *)
Lemma is_fresh_needs_routers :
  exists t s1 fr,
    parse_routing_info
      [Sample.record (PInt 300) [Sample.server "READ" ["127.0.0.1:9004"]]]
      (Sample.pool (Sample.addr 7687) [] false Sample.quiet) = (Return t, s1)
    /\ is_fresh t READ_ACCESS s1 = (Return fr, s1)
    /\ ttl t = PInt 300
    /\ nonempty (readers t) s1 = true
    /\ truth fr s1 = false.
Proof.
  eexists _, _, _. split; [vm_compute; reflexivity|].
  split; [vm_compute; reflexivity|]. vm_compute. auto.
Qed.

(** ** Rejected routing records *)

Section Parsing.
Context `{Env : Environment}.




Lemma py_iter_not_iterable (v : PyVal) :
  iterable v = false ->
  exists e, py_iter v = Raise e /\ caught_by e [KeyError; TypeError] = true.
Proof.
  destruct v; cbn; intros H; try discriminate; eexists; split; reflexivity.
Qed.












End Parsing.



(** ** OrderedSet keeps its elements distinct *)

Section OrderedSets.
Implicit Types (s : OrderedSet) (e x : Address).

Lemma OrderedSet_add_NoDup s e : NoDup s -> NoDup (OrderedSet_add s e).
Proof.
  intros H. unfold OrderedSet_add. case_decide; [exact H|].
  apply NoDup_app. split; [exact H|]. split.
  - intros y Hy Hin. apply list_elem_of_singleton in Hin. subst. tauto.
  - apply NoDup_singleton.
Qed.

Lemma elem_of_OrderedSet_add s e x : x ∈ OrderedSet_add s e <-> x ∈ s \/ x = e.
Proof.
  unfold OrderedSet_add. case_decide.
  - split; [tauto|]. intros [?| ->]; assumption.
  - rewrite elem_of_app, list_elem_of_singleton. tauto.
Qed.

Lemma OrderedSet_update_NoDup (l : list Address) : forall s,
  NoDup s -> NoDup (OrderedSet_update s l).
Proof.
  unfold OrderedSet_update. induction l as [|a l IH]; intros s H; cbn; [exact H|].
  apply IH, OrderedSet_add_NoDup, H.
Qed.

Lemma elem_of_OrderedSet_update (l : list Address) : forall s x,
  x ∈ OrderedSet_update s l <-> x ∈ s \/ x ∈ l.
Proof.
  unfold OrderedSet_update. induction l as [|a l IH]; intros s x; cbn.
  - rewrite elem_of_nil. tauto.
  - rewrite IH, elem_of_OrderedSet_add, elem_of_cons. tauto.
Qed.

(** Updating with elements that are new and distinct appends them. *)
Lemma OrderedSet_update_fresh (l : list Address) : forall s,
  NoDup (s ++ l) -> OrderedSet_update s l = s ++ l.
Proof.
  unfold OrderedSet_update. induction l as [|a l IH]; intros s H; cbn.
  - symmetry. apply app_nil_r.
  - assert (Ha : a ∉ s).
    { apply NoDup_app in H as (_ & Hd & _). intros Hin. apply (Hd a Hin). left. }
    unfold OrderedSet_add at 2. rewrite decide_False by exact Ha.
    rewrite IH; rewrite <- app_assoc; [reflexivity|exact H].
Qed.

Lemma fromkeys_NoDup (l : list Address) : NoDup (fromkeys l).
Proof. apply OrderedSet_update_NoDup, NoDup_nil_2. Qed.

Lemma elem_of_fromkeys (l : list Address) x : x ∈ fromkeys l <-> x ∈ l.
Proof. unfold fromkeys. rewrite elem_of_OrderedSet_update, elem_of_nil. tauto. Qed.

Lemma fromkeys_distinct (l : list Address) : NoDup l -> fromkeys l = l.
Proof. intros H. apply (OrderedSet_update_fresh l []). exact H. Qed.

Lemma fromkeys_nil_iff (l : list Address) : fromkeys l = [] <-> l = [].
Proof.
  split; [|intros ->; reflexivity].
  destruct l as [|a l]; [reflexivity|]. intros H.
  assert (Ha : a ∈ fromkeys (a :: l)) by (apply elem_of_fromkeys; left).
  rewrite H in Ha. apply elem_of_nil in Ha. destruct Ha.
Qed.

Lemma OrderedDict_del_None s e : OrderedDict_del s e = None <-> e ∉ s.
Proof.
  induction s as [|a s IH]; cbn.
  - split; [intros _; apply not_elem_of_nil|reflexivity].
  - case_decide as Hae.
    + subst. split; [discriminate|]. intros H. destruct H. left.
    + rewrite not_elem_of_cons. destruct (OrderedDict_del s e).
      * split; [discriminate|]. intros [_ H]. apply IH in H. discriminate.
      * split; [|reflexivity]. intros _. split; [congruence|]. apply IH. reflexivity.
Qed.

Lemma OrderedDict_del_Some s e : forall s',
  NoDup s -> OrderedDict_del s e = Some s' ->
  NoDup s' /\ length s = S (length s') /\ (forall x, x ∈ s' <-> x ∈ s /\ x <> e).
Proof.
  induction s as [|a s IH]; cbn; intros s' Hnd H; [discriminate|].
  apply NoDup_cons in Hnd as [Ha Hnd].
  case_decide as Hae.
  - injection H as <-. subst a. split; [exact Hnd|]. split; [reflexivity|].
    intros x. rewrite elem_of_cons. split.
    + intros Hx. split; [tauto|]. intros ->. tauto.
    + intros [[?|?] ?]; [congruence|assumption].
  - destruct (OrderedDict_del s e) as [r|] eqn:Hr; [|discriminate].
    injection H as <-. destruct (IH r Hnd eq_refl) as (Hndr & Hlen & Hmem).
    split; [|split].
    + apply NoDup_cons. split; [|exact Hndr]. rewrite Hmem. tauto.
    + cbn. lia.
    + intros x. rewrite !elem_of_cons, Hmem. split.
      * intros [->|[? ?]]; split; auto.
      * intros [[->|?] ?]; auto.
Qed.

Lemma OrderedSet_discard_NoDup s e : NoDup s -> NoDup (OrderedSet_discard s e).
Proof.
  intros H. unfold OrderedSet_discard.
  destruct (OrderedDict_del s e) eqn:Hd; [|exact H].
  apply (OrderedDict_del_Some s e _ H Hd).
Qed.

Lemma elem_of_OrderedSet_discard s e x :
  NoDup s -> x ∈ OrderedSet_discard s e <-> x ∈ s /\ x <> e.
Proof.
  intros H. unfold OrderedSet_discard.
  destruct (OrderedDict_del s e) eqn:Hd.
  - apply (OrderedDict_del_Some s e _ H Hd).
  - apply OrderedDict_del_None in Hd. split; [|tauto].
    intros Hx. split; [exact Hx|]. intros ->. tauto.
Qed.

(** Discarding an absent element changes nothing and does not fail. *)
Lemma OrderedSet_discard_absent s e : e ∉ s -> OrderedSet_discard s e = s.
Proof.
  intros H. unfold OrderedSet_discard.
  apply OrderedDict_del_None in H. rewrite H. reflexivity.
Qed.

Lemma OrderedSet_discard_length s e :
  NoDup s -> e ∈ s -> length s = S (length (OrderedSet_discard s e)).
Proof.
  intros Hnd H. unfold OrderedSet_discard.
  destruct (OrderedDict_del s e) eqn:Hd.
  - apply (OrderedDict_del_Some s e _ Hnd Hd).
  - apply OrderedDict_del_None in Hd. tauto.
Qed.

End OrderedSets.

(** ** What every method maintains *)

Section Frames.
Context `{Env : Environment}.

Lemma evolves_refl (s : State) : evolves s s.
Proof. unfold evolves, same_sets. repeat split; auto. Qed.

Lemma evolves_trans (s1 s2 s3 : State) : evolves s1 s2 -> evolves s2 s3 -> evolves s1 s3.
Proof.
  unfold evolves, same_sets.
  intros (H1 & (Ha & Hb & Hc) & H3 & H4 & H5 & H6) (K1 & (Ka & Kb & Kc) & K3 & K4 & K5 & K6).
  repeat split; try congruence; try lia; auto.
  etransitivity; eassumption.
Qed.

Lemma evolves_wf (s s' : State) : wf s -> evolves s s' -> wf s'.
Proof.
  unfold wf, evolves, live_table, same_sets.
  intros (Hnd & Hl) (H1 & (Ha & Hb & Hc) & H3 & _). split; [auto|].
  rewrite Ha, Hb, Hc. intuition lia.
Qed.

Lemma frame_ret {A} (a : A) : frame (ret a).
Proof. intros s r s' [= _ <-]. apply evolves_refl. Qed.

Lemma frame_raise {A} (e : Exc) : frame (@raise _ A e).
Proof. intros s r s' [= _ <-]. apply evolves_refl. Qed.

Lemma frame_lift {A} (o : Outcome A) : frame (lift o).
Proof. intros s r s' [= _ <-]. apply evolves_refl. Qed.

Lemma frame_gets {A} (f : State -> A) : frame (gets f).
Proof. intros s r s' [= _ <-]. apply evolves_refl. Qed.

Lemma frame_bind {A B} (m : M A) (k : A -> M B) :
  frame m -> (forall a, frame (k a)) -> frame (bind m k).
Proof.
  intros Hm Hk s r s'. unfold bind. destruct (m s) as [[a|e|] s1] eqn:Hms.
  - intros Hka. eapply evolves_trans; [eapply Hm, Hms|eapply Hk, Hka].
  - intros [= _ <-]. eapply Hm, Hms.
  - intros [= _ <-]. eapply Hm, Hms.
Qed.

Lemma frame_try_clauses {A} (m : M A) (clauses : list (list ErrorClass * (Exc -> M A))) :
  frame m -> Forall (fun c => forall e, frame (snd c e)) clauses ->
  frame (try_clauses m clauses).
Proof.
  intros Hm Hc s r s'. unfold try_clauses.
  destruct (m s) as [[a|e|] s1] eqn:Hms; try (intros [= _ <-]; eapply Hm, Hms).
  destruct (pick_clause e clauses) as [h|] eqn:Hp; [|intros [= _ <-]; eapply Hm, Hms].
  intros Hh. eapply evolves_trans; [eapply Hm, Hms|].
  revert Hp. induction Hc as [|[cl h'] rest Hh' _ IH]; cbn; [discriminate|].
  destruct (caught_by e cl); [|exact IH].
  intros [= ->]. eapply (Hh' e), Hh.
Qed.

(** The changes a method makes to one attribute of the pool. *)
Lemma frame_set_missing_writer (b : bool) : frame (modify (set_missing_writer b)).
Proof.
  intros s r s' [= _ <-]. unfold evolves, same_sets. cbn. repeat split; auto.
Qed.

Lemma frame_set_strategy (f : State -> LeastConnectedLoadBalancingStrategy) :
  frame (modify (fun s => set_load_balancing_strategy (f s) s)).
Proof.
  intros s r s' [= _ <-]. unfold evolves, same_sets. cbn. repeat split; auto.
Qed.

Lemma frame_call_super_deactivate (a : Address) : frame (call_super_deactivate a).
Proof.
  intros s r s' [= _ <-]. unfold evolves, same_sets. cbn. repeat split; auto.
  apply prefix_app_r. reflexivity.
Qed.

Lemma frame_call_acquire_direct (a : Address) : frame (call_acquire_direct a).
Proof.
  intros s r s'. unfold call_acquire_direct.
  destruct (acquire_direct a _) as [[cx|] d]; intros [= _ <-];
    unfold evolves, same_sets; cbn; repeat split; auto;
    apply prefix_app_r; reflexivity.
Qed.

Lemma frame_run_session (cx : Connection) : frame (run_session cx).
Proof.
  intros s r s'. unfold run_session.
  destruct (routing_session cx _) as [x d]; intros [= _ <-];
    unfold evolves, same_sets; cbn; repeat split; auto.
Qed.

Lemma NoDup_elements (l : loc) (s : State) : Forall NoDup (heap s) -> NoDup (elements l s).
Proof.
  intros H. unfold elements. destruct (heap s !! l) as [v|] eqn:Hl; cbn.
  - eapply Forall_lookup_1; eassumption.
  - apply NoDup_nil_2.
Qed.

Lemma evolves_store (l : loc) (v : OrderedSet) (s : State) :
  (Forall NoDup (heap s) -> NoDup v) ->
  evolves s (set_heap (<[l := v]> (heap s)) s).
Proof.
  intros Hv. unfold evolves, same_sets. cbn. rewrite length_insert.
  repeat split; auto. intros H. apply Forall_insert; auto.
Qed.

Lemma frame_discard (l : loc) (a : Address) : frame (discard l a).
Proof.
  intros s r s' [= _ <-]. apply evolves_store.
  intros H. apply OrderedSet_discard_NoDup, NoDup_elements, H.
Qed.

Lemma elements_store_eq (l : loc) (v : OrderedSet) (s : State) :
  (l < length (heap s))%nat -> elements l (set_heap (<[l := v]> (heap s)) s) = v.
Proof. intros H. unfold elements; cbn. rewrite list_lookup_insert_eq by exact H. reflexivity. Qed.

Lemma elements_store_ne (l l' : loc) (v : OrderedSet) (s : State) :
  l <> l' -> elements l' (set_heap (<[l := v]> (heap s)) s) = elements l' s.
Proof. intros H. unfold elements; cbn. rewrite list_lookup_insert_ne by exact H. reflexivity. Qed.

Lemma elements_cleared (l : loc) (s : State) :
  elements l (set_heap (<[l := []]> (heap s)) s) = [].
Proof.
  destruct (decide (l < length (heap s))%nat) as [H|H].
  - apply elements_store_eq, H.
  - unfold elements; cbn. rewrite list_insert_ge by lia.
    rewrite lookup_ge_None_2 by lia. reflexivity.
Qed.

Lemma frame_replace (l src : loc) : frame (replace l src).
Proof.
  intros s r s' [= _ <-].
  eapply evolves_trans; [apply (evolves_store l []); intros _; apply NoDup_nil_2|].
  apply evolves_store. intros _.
  apply OrderedSet_update_NoDup. rewrite elements_cleared. apply NoDup_nil_2.
Qed.

End Frames.

Create HintDb frames discriminated.

#[global] Hint Resolve frame_ret frame_raise frame_lift frame_gets
  frame_set_missing_writer frame_set_strategy frame_call_super_deactivate
  frame_call_acquire_direct frame_run_session frame_discard frame_replace : frames.

(** Walks down a method: sequencing, branches, then the known parts. *)
Ltac frames :=
  repeat first
    [ progress auto with frames
    | apply frame_bind; [|intros ?]
    | apply frame_try_clauses;
      [|repeat (apply Forall_cons; split; [intros ?; cbn|]); try apply Forall_nil_2]
    | match goal with
      | |- frame (if ?b then _ else _) => destruct b
      | |- frame (match ?x with _ => _ end) => destruct x
      | |- frame (let '(_, _) := ?x in _) => destruct x
      end ].

Section MethodFrames.
Context `{Env : Environment}.

Lemma frame_OrderedSet_new (elems : list Address) : frame (OrderedSet_new elems).
Proof.
  intros s r s' [= _ <-]. unfold evolves, same_sets. cbn. rewrite length_app.
  repeat split; auto; [lia|]. intros H. apply Forall_app. split; [exact H|].
  constructor; [apply fromkeys_NoDup|constructor].
Qed.
Hint Resolve frame_OrderedSet_new : frames.

Lemma frame_RoutingTable_init rs rd ws v : frame (RoutingTable_init rs rd ws v).
Proof. unfold RoutingTable_init, timer. frames. Qed.
Hint Resolve frame_RoutingTable_init : frames.

Lemma frame_parse_routing_info (records : list PyVal) : frame (parse_routing_info records).
Proof. unfold parse_routing_info. frames. Qed.
Hint Resolve frame_parse_routing_info : frames.

Lemma frame_is_fresh (t : RoutingTable) (mode : string) : frame (is_fresh t mode).
Proof. unfold is_fresh, timer. frames. Qed.
Hint Resolve frame_is_fresh : frames.

Lemma frame_set_table_fields (f : State -> RoutingTable) :
  (forall s, same_sets (routing_table s) (f s)) ->
  frame (modify (fun s => set_routing_table (f s) s)).
Proof.
  intros Hf s r s' [= _ <-]. unfold evolves. cbn. repeat split; auto; apply Hf.
Qed.

Lemma frame_RoutingTable_update (t : RoutingTable) : frame (RoutingTable_update t).
Proof.
  unfold RoutingTable_update, timer. frames;
    apply frame_set_table_fields; intros s; repeat split.
Qed.
Hint Resolve frame_RoutingTable_update : frames.

Lemma frame_OrderedSet_getitem (l : loc) (i : nat) : frame (OrderedSet_getitem l i).
Proof.
  intros s r s'. unfold OrderedSet_getitem.
  destruct (_ !! i); intros [= _ <-]; apply evolves_refl.
Qed.
Hint Resolve frame_OrderedSet_getitem : frames.

Lemma frame_select_loop (fuel : nat) (l : loc) (n start : nat) :
  forall i best least, frame (_select_loop fuel l n start i best least).
Proof.
  induction fuel as [|fuel IH]; intros i best least; cbn; frames.
Qed.
Hint Resolve frame_select_loop : frames.

Lemma frame_select (fuel offset : nat) (l : loc) : frame (_select fuel offset l).
Proof. unfold _select, OrderedSet_len. frames. Qed.
Hint Resolve frame_select : frames.

Lemma frame_select_reader (fuel : nat) (l : loc) : frame (select_reader fuel l).
Proof. unfold select_reader. frames. Qed.

Lemma frame_select_writer (fuel : nat) (l : loc) : frame (select_writer fuel l).
Proof. unfold select_writer. frames. Qed.
Hint Resolve frame_select_reader frame_select_writer : frames.

Lemma frame_deactivate (a : Address) : frame (deactivate a).
Proof. unfold deactivate. frames. Qed.

Lemma frame_remove_writer (a : Address) : frame (remove_writer a).
Proof. unfold remove_writer. frames. Qed.
Hint Resolve frame_deactivate frame_remove_writer : frames.

Lemma frame_fetch_routing_info (a : Address) : frame (fetch_routing_info a).
Proof. unfold fetch_routing_info. frames. Qed.
Hint Resolve frame_fetch_routing_info : frames.

Lemma frame_fetch_routing_table (a : Address) : frame (fetch_routing_table a).
Proof. unfold fetch_routing_table, OrderedSet_len. frames. Qed.
Hint Resolve frame_fetch_routing_table : frames.

Lemma frame_update_routing_table_from (l : list Address) :
  frame (update_routing_table_from l).
Proof. induction l as [|a l IH]; cbn; frames. Qed.
Hint Resolve frame_update_routing_table_from : frames.

Lemma frame_update_routing_table : frame update_routing_table.
Proof. unfold update_routing_table. frames. Qed.
Hint Resolve frame_update_routing_table : frames.

Lemma frame_deactivate_unknown (l known : list Address) :
  frame (deactivate_unknown l known).
Proof. induction l as [|a l IH]; cbn; frames. Qed.
Hint Resolve frame_deactivate_unknown : frames.

Lemma frame_update_connection_pool : frame update_connection_pool.
Proof. unfold update_connection_pool. frames. Qed.
Hint Resolve frame_update_connection_pool : frames.

Lemma frame_ensure_routing_table_is_fresh (mode : string) :
  frame (ensure_routing_table_is_fresh mode).
Proof. unfold ensure_routing_table_is_fresh. frames. Qed.
Hint Resolve frame_ensure_routing_table_is_fresh : frames.

Lemma frame_acquire_loop (fuel : nat) (sel : loc -> M (option Address))
  (l : loc) (mode : string) :
  (forall l', frame (sel l')) -> frame (acquire_loop fuel sel l mode).
Proof. intros Hsel. induction fuel as [|fuel IH]; cbn; frames. Qed.

Lemma frame_acquire (fuel : nat) (mode : option string) : frame (acquire fuel mode).
Proof.
  unfold acquire. frames; apply frame_acquire_loop; intros; frames.
Qed.

Lemma frame_handle (error : Exc) (cx : Connection) : frame (handle error cx).
Proof. unfold handle. frames. Qed.

End MethodFrames.

(** ** Removing a writer, handling an error *)

Section Repair.
Context `{Env : Environment}.

Lemma set_heap_same (s : State) : set_heap (heap s) s = s.
Proof. destruct s; reflexivity. Qed.

Lemma elements_lookup (l : loc) (s : State) :
  (l < length (heap s))%nat -> heap s !! l = Some (elements l s).
Proof.
  intros H. unfold elements.
  destruct (lookup_lt_is_Some_2 (heap s) l H) as [v Hv]. rewrite Hv. reflexivity.
Qed.

(** C7.  In a well-formed state [remove_writer(a)] returns normally; the
    writers afterwards are the writers before without [a]; the routers,
    the readers and everything else in the pool are as before; when [a]
    is not a writer the state does not change at all. *)
Theorem remove_writer_only (a : Address) (s : State) :
  wf s ->
  exists s',
    remove_writer a s = (Return tt, s')
    /\ routing_table s' = routing_table s
    /\ elements (routers (routing_table s)) s' = elements (routers (routing_table s)) s
    /\ elements (readers (routing_table s)) s' = elements (readers (routing_table s)) s
    /\ elements (writers (routing_table s)) s'
       = OrderedSet_discard (elements (writers (routing_table s)) s) a
    /\ (forall x, x ∈ elements (writers (routing_table s)) s'
                  <-> x ∈ elements (writers (routing_table s)) s /\ x <> a)
    /\ missing_writer s' = missing_writer s
    /\ direct s' = direct s
    /\ trace s' = trace s
    /\ (a ∉ elements (writers (routing_table s)) s -> s' = s).
Proof.
  intros (Hnd & Hr & Hrd & Hw & Hne1 & Hne2 & Hne3).
  eexists. split; [reflexivity|]. cbn.
  split; [reflexivity|].
  split; [apply elements_store_ne; congruence|].
  split; [apply elements_store_ne; congruence|].
  split; [apply elements_store_eq, Hw|].
  split.
  { intros x. rewrite elements_store_eq by exact Hw.
    apply elem_of_OrderedSet_discard, NoDup_elements, Hnd. }
  repeat (split; [reflexivity|]).
  intros Hnot. rewrite OrderedSet_discard_absent by exact Hnot.
  rewrite list_insert_id by (apply elements_lookup, Hw).
  apply set_heap_same.
Qed.

(** C8.  [handle] compares the class of the error with [in], that is by
    equality: an error whose class is none of the five named classes
    leaves the whole state as it is, so no role set changes and no
    call reaches the direct pool; a proper subclass of one of the five
    is such a class. *)
Theorem handle_exact_class :
  (forall (error : Exc) (cx : Connection) (s : State),
      exc_class error ∉ handled_classes ->
      handle error cx s = (Return tt, s))
  /\ (forall (name : string) (base : ErrorClass) (args : Message)
             (cx : Connection) (s : State),
         base ∈ handled_classes ->
         issubclass (Subclass name base) base = true
         /\ Subclass name base <> base
         /\ handle (mkExc (Subclass name base) args) cx s = (Return tt, s)).
Proof.
  assert (H1 : forall (error : Exc) (cx : Connection) (s : State),
             exc_class error ∉ handled_classes ->
             handle error cx s = (Return tt, s)).
  { intros error cx s Hc. unfold handle, handled_classes in *.
    rewrite !bool_decide_eq_false_2; [reflexivity| |].
    - intros Hin. apply Hc. rewrite !elem_of_cons in *. tauto.
    - intros Hin. apply Hc. rewrite !elem_of_cons in *. tauto. }
  split; [exact H1|].
  intros name base args cx s Hbase.
  assert (Hne : Subclass name base <> base).
  { clear. induction base; try discriminate. intros [= -> Hb]. auto. }
  split; [|split; [exact Hne|]].
  - cbn. rewrite decide_False by exact Hne.
    destruct base; cbn; rewrite ?decide_True by reflexivity; reflexivity.
  - apply H1. cbn. unfold handled_classes. rewrite !elem_of_cons, elem_of_nil.
    intros [H|[H|[H|[H|[H|[]]]]]]; discriminate.
Qed.

End Repair.

(** ** Fetching one routing table *)

Section Fetching.
Context `{Env : Environment}.

(** Once the routing information is there and parses, the flag is
    assigned and only then the candidate is checked. *)
Lemma fetch_routing_table_parsed (a : Address) (s s1 s2 : State)
  (info : list PyVal) (t : RoutingTable) :
  fetch_routing_info a s = (Return (Some info), s1) ->
  parse_routing_info info s1 = (Return t, s2) ->
  fetch_routing_table a s
  = ((if Nat.eqb (length (elements (routers t) s2)) 0 then
        Raise (mkExc RoutingProtocolError
                 (Formatted "No routing servers returned from server %r" a))
      else if Nat.eqb (length (elements (readers t) s2)) 0 then
        Raise (mkExc RoutingProtocolError
                 (Formatted "No read servers returned from server %r" a))
      else Return (Some t)),
     set_missing_writer (Nat.eqb (length (elements (writers t) s2)) 0) s2).
Proof.
  intros Hinfo Hparse. unfold fetch_routing_table, bind.
  rewrite Hinfo, Hparse. cbn.
  destruct (Nat.eqb (length (elements (routers t) s2)) 0); [reflexivity|].
  destruct (Nat.eqb (length (elements (readers t) s2)) 0); reflexivity.
Qed.

Lemma length_eqb_nil {A} (l : list A) : Nat.eqb (length l) 0 = bool_decide (l = []).
Proof. destruct l; reflexivity. Qed.

(** C4.  For a candidate that parsed: no routers, or no readers, is a
    [RoutingProtocolError]; otherwise the candidate is returned, with or
    without writers; in each case the pool is left with
    [missing_writer] equal to "the candidate has no writers". *)
Theorem fetch_routing_table_checks (a : Address) (s s1 s2 : State)
  (info : list PyVal) (t : RoutingTable) :
  fetch_routing_info a s = (Return (Some info), s1) ->
  parse_routing_info info s1 = (Return t, s2) ->
  let s3 := set_missing_writer (bool_decide (elements (writers t) s2 = [])) s2 in
  (elements (routers t) s2 = [] ->
   fetch_routing_table a s
   = (Raise (mkExc RoutingProtocolError
               (Formatted "No routing servers returned from server %r" a)), s3))
  /\ (elements (routers t) s2 <> [] -> elements (readers t) s2 = [] ->
      fetch_routing_table a s
      = (Raise (mkExc RoutingProtocolError
                  (Formatted "No read servers returned from server %r" a)), s3))
  /\ (elements (routers t) s2 <> [] -> elements (readers t) s2 <> [] ->
      fetch_routing_table a s = (Return (Some t), s3))
  /\ missing_writer s3 = bool_decide (elements (writers t) s2 = []).
Proof.
  intros Hinfo Hparse s3.
  pose proof (fetch_routing_table_parsed a s s1 s2 info t Hinfo Hparse) as H.
  rewrite !length_eqb_nil in H. fold s3 in H. rewrite H.
  repeat split.
  - intros Hr. rewrite bool_decide_eq_true_2 by exact Hr. reflexivity.
  - intros Hr Hrd. rewrite bool_decide_eq_false_2 by exact Hr.
    rewrite bool_decide_eq_true_2 by exact Hrd. reflexivity.
  - intros Hr Hrd. rewrite bool_decide_eq_false_2 by exact Hr.
    rewrite bool_decide_eq_false_2 by exact Hrd. reflexivity.
Qed.

(** C9.  The flag is assigned before the candidate is checked: when the
    candidate parsed but has no routers or no readers, the call raises
    [RoutingProtocolError] and the state it leaves is the state after
    parsing with [missing_writer] set to "the candidate has no
    writers", whatever the flag was before. *)
Theorem fetch_routing_table_flag_kept (a : Address) (s s1 s2 : State)
  (info : list PyVal) (t : RoutingTable) :
  fetch_routing_info a s = (Return (Some info), s1) ->
  parse_routing_info info s1 = (Return t, s2) ->
  elements (routers t) s2 = [] \/ elements (readers t) s2 = [] ->
  exists e,
    fetch_routing_table a s
    = (Raise e, set_missing_writer (bool_decide (elements (writers t) s2 = [])) s2)
    /\ exc_class e = RoutingProtocolError
    /\ missing_writer (snd (fetch_routing_table a s))
       = bool_decide (elements (writers t) s2 = []).
Proof.
  intros Hinfo Hparse Hbad.
  rewrite (fetch_routing_table_parsed a s s1 s2 info t Hinfo Hparse).
  rewrite !length_eqb_nil.
  destruct (decide (elements (routers t) s2 = [])) as [Hr|Hr].
  - rewrite (bool_decide_eq_true_2 _ Hr). eexists. repeat split.
  - destruct Hbad as [Hb|Hb]; [contradiction|].
    rewrite (bool_decide_eq_false_2 _ Hr), (bool_decide_eq_true_2 _ Hb).
    eexists. repeat split.
Qed.

End Fetching.

(** ** Runs on the sample environment *)

Lemma routed_wf (initial : Address) (mw : bool) (net : Sample.Net) :
  wf (Sample.routed initial mw net).
Proof.
  split.
  - cbn. repeat (apply Forall_cons; split); try apply Forall_nil_2;
      apply (bool_decide_unpack _); vm_compute; exact I.
  - unfold live_table. cbn. repeat split; lia.
Qed.

(** C7, witness: the only writer of a refreshed pool is removed. *)
Lemma remove_writer_only_witness :
  wf (Sample.routed (Sample.addr 7687) false Sample.quiet)
  /\ exists s',
       remove_writer (Sample.addr 9006)
         (Sample.routed (Sample.addr 7687) false Sample.quiet) = (Return tt, s')
       /\ elements 0%nat s' = [Sample.addr 9001; Sample.addr 9002; Sample.addr 9003]
       /\ elements 1%nat s' = [Sample.addr 9004; Sample.addr 9005]
       /\ elements 2%nat s' = [].
Proof.
  split; [apply routed_wf|].
  destruct (remove_writer_only (Sample.addr 9006) _
              (routed_wf (Sample.addr 7687) false Sample.quiet))
    as (s' & Hrun & _ & Hr & Hrd & Hw & _).
  exists s'. split; [exact Hrun|].
  cbn in Hr, Hrd, Hw. rewrite Hr, Hrd, Hw. repeat split.
Defined.

(** C8, witness: an error of a class derived from [ServiceUnavailable]. *)
Lemma handle_exact_class_witness :
  (Subclass "RouterUnavailable" ServiceUnavailable ∉ handled_classes)
  /\ handle (mkExc (Subclass "RouterUnavailable" ServiceUnavailable) (Text "gone"))
            (mkConnection (Sample.addr 9006) ConnectionExpired)
            (Sample.routed (Sample.addr 7687) false Sample.quiet)
     = (Return tt, Sample.routed (Sample.addr 7687) false Sample.quiet).
Proof.
  assert (H : Subclass "RouterUnavailable" ServiceUnavailable ∉ handled_classes).
  { unfold handled_classes. rewrite !elem_of_cons, elem_of_nil.
    intros [H|[H|[H|[H|[H|[]]]]]]; discriminate. }
  split; [exact H|].
  apply (proj1 handle_exact_class). exact H.
Defined.

(** C4, witness: a router that lists routers and readers but no writer
    is accepted, and the flag is raised. *)
Lemma fetch_routing_table_checks_witness :
  exists t s3,
    fetch_routing_table (Sample.addr 9001)
      (Sample.routed (Sample.addr 7687) false
         (Sample.mkNet []
            [(Sample.addr 9001,
              Sample.reply (PInt 300)
                [Sample.server "ROUTE" ["127.0.0.1:9001"];
                 Sample.server "READ" ["127.0.0.1:9004"]])] [] []))
    = (Return (Some t), s3)
    /\ missing_writer s3 = true.
Proof.
  set (s := Sample.routed _ _ _).
  destruct (fetch_routing_info (Sample.addr 9001) s) as [[[info|]|e|] s1] eqn:Hinfo;
    try (vm_compute in Hinfo; discriminate).
  destruct (parse_routing_info info s1) as [[t|e|] s2] eqn:Hparse;
    try (vm_compute in Hinfo; injection Hinfo as <- <-;
         vm_compute in Hparse; discriminate).
  destruct (fetch_routing_table_checks _ _ _ _ _ _ Hinfo Hparse) as (_ & _ & Hok & Hmw).
  assert (Hsets : elements (routers t) s2 <> [] /\ elements (readers t) s2 <> []
                  /\ elements (writers t) s2 = []).
  { vm_compute in Hinfo; injection Hinfo as <- <-.
    vm_compute in Hparse; injection Hparse as <- <-.
    vm_compute. repeat split; discriminate. }
  destruct Hsets as (Hr & Hrd & Hw).
  eexists _, _. split; [apply Hok; assumption|].
  rewrite Hmw. apply bool_decide_eq_true_2, Hw.
Defined.

(** C9, witness: a router that lists routers only; the call raises and
    the flag, false before, is true afterwards. *)
Lemma fetch_routing_table_flag_kept_witness :
  exists e s3,
    fetch_routing_table (Sample.addr 9001)
      (Sample.routed (Sample.addr 7687) false
         (Sample.mkNet []
            [(Sample.addr 9001,
              Sample.reply (PInt 300) [Sample.server "ROUTE" ["127.0.0.1:9001"]])]
            [] []))
    = (Raise e, s3)
    /\ exc_class e = RoutingProtocolError
    /\ missing_writer s3 = true.
Proof.
  set (s := Sample.routed _ _ _).
  destruct (fetch_routing_info (Sample.addr 9001) s) as [[[info|]|e|] s1] eqn:Hinfo;
    try (vm_compute in Hinfo; discriminate).
  destruct (parse_routing_info info s1) as [[t|e|] s2] eqn:Hparse;
    try (vm_compute in Hinfo; injection Hinfo as <- <-;
         vm_compute in Hparse; discriminate).
  assert (Hsets : elements (readers t) s2 = [] /\ elements (writers t) s2 = []).
  { vm_compute in Hinfo; injection Hinfo as <- <-.
    vm_compute in Hparse; injection Hparse as <- <-.
    vm_compute. repeat split. }
  destruct Hsets as (Hrd & Hw).
  destruct (fetch_routing_table_flag_kept _ _ _ _ _ _ Hinfo Hparse (or_intror Hrd))
    as (e & Hrun & Hcls & _).
  eexists _, _. split; [exact Hrun|]. split; [exact Hcls|].
  cbn. apply bool_decide_eq_true_2, Hw.
Defined.

(** ** The least-connected selection *)

Section Selection.
Context `{Env : Environment}.

Lemma mod_wrap (a n : nat) : (n <= a < 2 * n)%nat -> (a mod n = a - n)%nat.
Proof.
  intros H. symmetry. apply (Nat.mod_unique a n 1); lia.
Qed.

(** The [k]-th address of the ring walk that starts at [offset mod n]. *)
Lemma lookup_rotate_mod (l : list Address) (offset k : nat) :
  (k < length l)%nat ->
  rotate offset l !! k = l !! ((offset mod length l + k) mod length l)%nat.
Proof.
  intros Hk. unfold rotate.
  assert (Hst : (offset mod length l < length l)%nat)
    by (apply Nat.mod_upper_bound; lia).
  set (st := (offset mod length l)%nat) in *.
  destruct (decide (k < length l - st)%nat) as [Hlt|Hge].
  - rewrite lookup_app_l by (rewrite length_drop; lia).
    rewrite lookup_drop, Nat.mod_small by lia. reflexivity.
  - rewrite lookup_app_r by (rewrite length_drop; lia).
    rewrite length_drop, lookup_take_lt by lia.
    rewrite mod_wrap by lia. f_equal. lia.
Qed.

Lemma ring_back_to_start (start j n : nat) :
  (start < n)%nat -> (0 < j <= n)%nat ->
  Nat.eqb ((start + j) mod n) start = bool_decide (j = n).
Proof.
  intros Hs Hj. case_bool_decide as Hjn.
  - subst j. apply Nat.eqb_eq. rewrite mod_wrap by lia. lia.
  - apply Nat.eqb_neq. destruct (decide (start + j < n)%nat).
    + rewrite Nat.mod_small by lia. lia.
    + rewrite mod_wrap by lia. lia.
Qed.

(** The loop reads the walk from position [k] on and stops after its
    last address; it needs one unit of fuel per address left. *)
Lemma select_loop_walk (addresses : loc) (s : State) (start : nat) :
  let l := elements addresses s in
  let count := fun a => in_use_connection_count a (direct s) in
  (start < length l)%nat ->
  forall (m k fuel : nat) (best : option Address) (least : Z),
    (k + S m = length l)%nat -> (S m <= fuel)%nat ->
    _select_loop fuel addresses (length l) start ((start + k) mod length l)%nat
                 best least s
    = (Return (least_connected count (drop k (rotate start l)) best least), s).
Proof.
  intros l count Hstart. induction m as [|m IH]; intros k fuel best least Hk Hfuel;
    (destruct fuel as [|fuel]; [lia|]).
  all: assert (Hlook : rotate start l !! k = l !! ((start + k) mod length l)%nat)
    by (rewrite lookup_rotate_mod by lia;
        rewrite (Nat.mod_small start) by lia; reflexivity).
  all: destruct (lookup_lt_is_Some_2 (rotate start l) k) as [a Ha];
    [rewrite length_rotate; lia|].
  all: rewrite (drop_S _ a k Ha); cbn [least_connected].
  all: cbn [_select_loop]; unfold bind, OrderedSet_getitem, gets, ret.
  all: fold l; rewrite <- Hlook, Ha.
  all: rewrite Nat.Div0.add_mod_idemp_l, <- Nat.add_assoc.
  all: rewrite ring_back_to_start by lia.
  - rewrite bool_decide_eq_true_2 by lia.
    rewrite drop_ge by (rewrite length_rotate; lia).
    fold (count a). destruct (count a <? least); reflexivity.
  - rewrite bool_decide_eq_false_2 by lia.
    replace (k + 1)%nat with (S k) by lia.
    fold (count a). destruct (count a <? least); cbn [fst snd];
      apply IH; lia.
Qed.

(** What the scan returns: the best so far when no address is strictly
    below it, and otherwise the first address of the walk that attains
    the smallest count. *)
Lemma least_connected_spec (count : Address -> Z) (w : list Address) :
  forall (best : option Address) (least : Z),
    (least_connected count w best least = best
     /\ forall a, a ∈ w -> least <= count a)
    \/ (exists k a,
           w !! k = Some a
           /\ least_connected count w best least = Some a
           /\ count a < least
           /\ (forall b, b ∈ w -> count a <= count b)
           /\ (forall j b, (j < k)%nat -> w !! j = Some b -> count a < count b)).
Proof.
  induction w as [|a0 w IH]; intros best least; cbn.
  - left. split; [reflexivity|]. intros a Ha. apply elem_of_nil in Ha. destruct Ha.
  - destruct (Z.ltb_spec (count a0) least) as [Hlt|Hge].
    + right. destruct (IH (Some a0) (count a0))
        as [[Hr Hall] | (k & a & Hk & Hr & Hc & Hmin & Hfirst)].
      * exists 0%nat, a0. split; [reflexivity|]. split; [exact Hr|].
        split; [exact Hlt|]. split.
        -- intros b Hb. apply elem_of_cons in Hb as [->|Hb]; [lia|auto].
        -- intros j b Hj. lia.
      * exists (S k), a. split; [exact Hk|]. split; [exact Hr|].
        split; [lia|]. split.
        -- intros b Hb. apply elem_of_cons in Hb as [->|Hb]; [lia|auto].
        -- intros [|j] b Hj Hb; cbn in Hb.
           ++ injection Hb as <-. exact Hc.
           ++ apply (Hfirst j b); [lia|exact Hb].
    + destruct (IH best least)
        as [[Hr Hall] | (k & a & Hk & Hr & Hc & Hmin & Hfirst)].
      * left. split; [exact Hr|].
        intros b Hb. apply elem_of_cons in Hb as [->|Hb]; [lia|auto].
      * right. exists (S k), a. split; [exact Hk|]. split; [exact Hr|].
        split; [exact Hc|]. split.
        -- intros b Hb. apply elem_of_cons in Hb as [->|Hb]; [lia|auto].
        -- intros [|j] b Hj Hb; cbn in Hb.
           ++ injection Hb as <-. lia.
           ++ apply (Hfirst j b); [lia|exact Hb].
Qed.

(** With fuel for one pass over the set, [_select] returns the scan of
    the ring walk and leaves the state alone. *)
Lemma select_runs (fuel offset : nat) (addresses : loc) (s : State) :
  (length (elements addresses s) <= fuel)%nat ->
  _select fuel offset addresses s
  = (Return (least_connected (fun a => in_use_connection_count a (direct s))
               (rotate offset (elements addresses s)) None maxsize), s).
Proof.
  intros Hfuel. unfold _select, bind, OrderedSet_len, gets.
  destruct (Nat.eqb_spec (length (elements addresses s)) 0) as [Hz|Hnz].
  { apply length_zero_iff_nil in Hz. rewrite Hz.
    unfold rotate. rewrite drop_nil, take_nil. reflexivity. }
  assert (Hst : (offset mod length (elements addresses s)
                 < length (elements addresses s))%nat)
    by (apply Nat.mod_upper_bound; lia).
  pose proof (select_loop_walk addresses s _ Hst
                (length (elements addresses s) - 1) 0 fuel None maxsize) as H.
  rewrite Nat.add_0_r, Nat.Div0.mod_mod in H.
  rewrite H by lia. cbn [drop].
  f_equal. f_equal. f_equal. unfold rotate.
  rewrite Nat.Div0.mod_mod. reflexivity.
Qed.

(** C3.  With fuel for one pass and in-use counts below [sys.maxsize],
    [_select] returns, without changing the state; it returns none
    exactly when the set is empty; an address it returns sits at some
    position of the ring walk that starts at [offset mod n], its count
    is at most the count of every address of the set, and every address
    met earlier in the walk has a strictly larger count.
    [select_reader] and [select_writer] return what [_select] returns
    for their own offset and leave that offset incremented by one,
    whether an address or none was selected. *)
Theorem select_least_connected (fuel offset : nat) (addresses : loc) (s : State) :
  let l := elements addresses s in
  let count := fun a => in_use_connection_count a (direct s) in
  let lb := load_balancing_strategy s in
  (length l <= fuel)%nat ->
  (forall a, a ∈ l -> count a < maxsize) ->
  (exists r,
      _select fuel offset addresses s = (Return r, s)
      /\ (r = None <-> l = [])
      /\ (forall a, r = Some a ->
            exists k,
              (drop (offset mod length l) l ++ take (offset mod length l) l) !! k
              = Some a
              /\ (forall b, b ∈ l -> count a <= count b)
              /\ (forall j b, (j < k)%nat ->
                     (drop (offset mod length l) l ++ take (offset mod length l) l) !! j
                     = Some b ->
                     count a < count b)))
  /\ (exists r,
        _select fuel (_readers_offset lb) addresses s = (Return r, s)
        /\ select_reader fuel addresses s
           = (Return r,
              set_load_balancing_strategy
                (mkStrategy (_readers_offset lb + 1) (_writers_offset lb)) s))
  /\ (exists r,
        _select fuel (_writers_offset lb) addresses s = (Return r, s)
        /\ select_writer fuel addresses s
           = (Return r,
              set_load_balancing_strategy
                (mkStrategy (_readers_offset lb) (_writers_offset lb + 1)) s)).
Proof.
  intros l count lb Hfuel Hcount. split; [|split].
  - eexists. split; [apply select_runs, Hfuel|].
    fold l count. change (drop _ l ++ take _ l) with (rotate offset l).
    destruct (least_connected_spec count (rotate offset l) None maxsize)
      as [[Hr Hall] | (k & a & Hk & Hr & Hc & Hmin & Hfirst)].
    + rewrite Hr. split.
      * split; [intros _|reflexivity].
        destruct l as [|a0 l0] eqn:Hl; [reflexivity|exfalso].
        assert (Hin : a0 ∈ a0 :: l0) by left.
        specialize (Hall a0 (proj2 (elem_of_rotate _ _ _) Hin)).
        specialize (Hcount a0 Hin). lia.
      * intros a [=].
    + rewrite Hr. split.
      * split; [discriminate|]. intros Hnil. rewrite Hnil in Hk.
        unfold rotate in Hk. rewrite drop_nil, take_nil in Hk. discriminate.
      * intros a' [= <-]. exists k. split; [exact Hk|]. split; [|exact Hfirst].
        intros b Hb. apply Hmin, elem_of_rotate, Hb.
  - eexists. split; [apply select_runs, Hfuel|].
    unfold select_reader, bind, gets, modify, ret.
    fold lb. rewrite select_runs by exact Hfuel. reflexivity.
  - eexists. split; [apply select_runs, Hfuel|].
    unfold select_writer, bind, gets, modify, ret.
    fold lb. rewrite select_runs by exact Hfuel. reflexivity.
Qed.

End Selection.

(** C3, witness: three readers with counts 2, 1 and 1, walked from
    offset 2: the walk reads the third reader first and keeps it. *)
Lemma select_least_connected_witness :
  let s := Sample.routed (Sample.addr 7687) false
             (Sample.mkNet [] []
                [(Sample.addr 9001, 2); (Sample.addr 9002, 1); (Sample.addr 9003, 1)]
                []) in
  _select 3 2 0%nat s = (Return (Some (Sample.addr 9003)), s)
  /\ exists r s',
       select_reader 3 0%nat s = (Return r, s')
       /\ _readers_offset (load_balancing_strategy s') = 1%nat.
Proof.
  intros s.
  assert (Hfuel : (length (elements 0%nat s) <= 3)%nat) by (cbn; lia).
  assert (Hcount : forall a, a ∈ elements 0%nat s ->
                     in_use_connection_count a (direct s) < maxsize).
  { intros a Ha. cbn in Ha. rewrite !elem_of_cons, elem_of_nil in Ha.
    destruct Ha as [->|[->|[->|[]]]]; vm_compute; reflexivity. }
  destruct (select_least_connected 3 2 0%nat s Hfuel Hcount)
    as ((r & Hrun & _) & (r' & _ & Hreader) & _).
  split.
  - rewrite Hrun. vm_compute in Hrun. injection Hrun as <-. reflexivity.
  - eexists _, _. split; [exact Hreader|]. reflexivity.
Defined.

(** ** Deactivation *)

Section Deactivation.
Context `{Env : Environment}.

(** [deactivate(a)] in a well-formed state: [a] leaves the three role
    sets, one call reaches the direct pool, nothing else moves. *)
Lemma deactivate_spec (a : Address) (s : State) :
  wf s ->
  exists s',
    deactivate a s = (Return tt, s')
    /\ wf s'
    /\ routing_table s' = routing_table s
    /\ length (heap s') = length (heap s)
    /\ (forall l, elements l s' = OrderedSet_discard (elements l s) a
                  \/ elements l s' = elements l s)
    /\ elements (routers (routing_table s)) s'
       = OrderedSet_discard (elements (routers (routing_table s)) s) a
    /\ elements (readers (routing_table s)) s'
       = OrderedSet_discard (elements (readers (routing_table s)) s) a
    /\ elements (writers (routing_table s)) s'
       = OrderedSet_discard (elements (writers (routing_table s)) s) a
    /\ trace s' = trace s ++ [CallDeactivate a]
    /\ direct s' = super_deactivate a (direct s)
    /\ load_balancing_strategy s' = load_balancing_strategy s
    /\ missing_writer s' = missing_writer s.
Proof.
  intros Hwf. destruct (deactivate a s) as [r s'] eqn:Hrun.
  pose proof (evolves_wf _ _ Hwf (frame_deactivate a s r s' Hrun)) as Hwf'.
  destruct Hwf as (Hnd & Hr & Hrd & Hw & Hne1 & Hne2 & Hne3).
  unfold deactivate, bind, gets, discard, store, modify, call_super_deactivate in Hrun.
  cbn in Hrun. injection Hrun as <- <-.
  eexists. split; [reflexivity|]. split; [exact Hwf'|].
  set (t := routing_table s) in *.
  unfold elements in *. cbn in *.
  rewrite !length_insert.
  rewrite ?(list_lookup_insert_ne _ (routers t) (readers t)) by congruence.
  rewrite ?(list_lookup_insert_ne _ (readers t) (writers t)) by congruence.
  rewrite ?(list_lookup_insert_ne _ (routers t) (writers t)) by congruence.
  repeat split.
  - intros l.
    destruct (decide (l = writers t)) as [->|H3].
    { left. rewrite list_lookup_insert_eq by (rewrite !length_insert; lia).
      reflexivity. }
    rewrite (list_lookup_insert_ne _ (writers t) l) by congruence.
    destruct (decide (l = readers t)) as [->|H2].
    { left. rewrite list_lookup_insert_eq by (rewrite !length_insert; lia).
      reflexivity. }
    rewrite (list_lookup_insert_ne _ (readers t) l) by congruence.
    destruct (decide (l = routers t)) as [->|H1].
    { left. rewrite list_lookup_insert_eq by lia. reflexivity. }
    right. rewrite (list_lookup_insert_ne _ (routers t) l) by congruence.
    reflexivity.
  - rewrite (list_lookup_insert_ne _ (writers t) (routers t)) by congruence.
    rewrite (list_lookup_insert_ne _ (readers t) (routers t)) by congruence.
    rewrite list_lookup_insert_eq by lia. reflexivity.
  - rewrite (list_lookup_insert_ne _ (writers t) (readers t)) by congruence.
    rewrite list_lookup_insert_eq by (rewrite !length_insert; lia). reflexivity.
  - rewrite list_lookup_insert_eq by (rewrite !length_insert; lia). reflexivity.
Qed.

End Deactivation.

(** ** More on OrderedSet *)

Section OrderedSetOrder.
Implicit Types (s : OrderedSet) (e x : Address).

Lemma filter_present_none (l s : list Address) :
  (forall x, x ∈ l -> x ∈ s) -> filter (λ x, x ∉ s) l = [].
Proof.
  induction l as [|a l IH]; intros H; [reflexivity|].
  rewrite filter_cons_False by (intros Hn; apply Hn, H; left).
  apply IH. intros x Hx. apply H. right. exact Hx.
Qed.

(** [update] leaves the elements already present where they are and
    appends the new ones, each at its first occurrence. *)
Lemma OrderedSet_update_filter (l : list Address) : forall s,
  OrderedSet_update s l = s ++ filter (λ x, x ∉ s) (fromkeys l).
Proof.
  induction l as [|a l IH]; intros s.
  - cbn. rewrite app_nil_r. reflexivity.
  - change (OrderedSet_update s (a :: l)) with (OrderedSet_update (OrderedSet_add s a) l).
    change (fromkeys (a :: l)) with (OrderedSet_update (OrderedSet_add [] a) l).
    assert (Hadd : OrderedSet_add [] a = [a]).
    { unfold OrderedSet_add. case_decide as H; [|reflexivity].
      apply elem_of_nil in H. destruct H. }
    rewrite (IH (OrderedSet_add s a)), (IH (OrderedSet_add [] a)), Hadd.
    rewrite filter_app, list_filter_filter.
    unfold OrderedSet_add. case_decide as Ha.
    + rewrite filter_cons_False by (cbn; tauto). rewrite filter_nil. cbn [app].
      f_equal. apply list_filter_iff. intros x. split; [|tauto].
      intros Hx. split; [exact Hx|]. intros Hin.
      apply list_elem_of_singleton in Hin. subst. tauto.
    + rewrite filter_cons_True by exact Ha. rewrite filter_nil. cbn [app].
      rewrite <- app_assoc. cbn [app]. f_equal. f_equal.
      apply list_filter_iff. intros x.
      rewrite elem_of_app, !list_elem_of_singleton. tauto.
Qed.

Lemma fromkeys_idempotent (l : list Address) : fromkeys (fromkeys l) = fromkeys l.
Proof. apply fromkeys_distinct, fromkeys_NoDup. Qed.

Lemma OrderedDict_del_last s e : e ∉ s -> OrderedDict_del (s ++ [e]) e = Some s.
Proof.
  induction s as [|a s IH]; intros H; cbn.
  - rewrite decide_True by reflexivity. reflexivity.
  - apply not_elem_of_cons in H as [Hne Hs].
    rewrite decide_False by congruence. rewrite IH by exact Hs. reflexivity.
Qed.

(** X1.  [OrderedSet(elements)] keeps each element once, at its first
    occurrence: the result has no duplicates and the members of the
    input, an element in front stays in front with its later
    occurrences dropped, building a set from a set changes nothing, and
    the result is empty only for an empty input. *)
Theorem fromkeys_first_occurrences (l : list Address) :
  NoDup (fromkeys l)
  /\ (forall x, x ∈ fromkeys l <-> x ∈ l)
  /\ (forall a, fromkeys (a :: l) = a :: filter (λ x, x <> a) (fromkeys l))
  /\ fromkeys (fromkeys l) = fromkeys l
  /\ (fromkeys l = [] <-> l = []).
Proof.
  split; [apply fromkeys_NoDup|]. split; [intros x; apply elem_of_fromkeys|].
  split; [|split; [apply fromkeys_idempotent|apply fromkeys_nil_iff]].
  intros a. change (fromkeys (a :: l)) with (OrderedSet_update (OrderedSet_add [] a) l).
  assert (Hadd : OrderedSet_add [] a = [a]).
  { unfold OrderedSet_add. case_decide as H; [|reflexivity].
    apply elem_of_nil in H. destruct H. }
  rewrite Hadd, OrderedSet_update_filter. cbn [app]. f_equal.
  apply list_filter_iff. intros x. rewrite list_elem_of_singleton. tauto.
Qed.

(** X2.  [OrderedSet.update(elements)]: the elements already in the set
    keep their places, the new ones follow in the order of their first
    occurrence, and a set without duplicates stays without duplicates. *)
Theorem update_appends_new (s : OrderedSet) (l : list Address) :
  OrderedSet_update s l = s ++ filter (λ x, x ∉ s) (fromkeys l)
  /\ (forall x, x ∈ OrderedSet_update s l <-> x ∈ s \/ x ∈ l)
  /\ (NoDup s -> NoDup (OrderedSet_update s l))
  /\ ((forall x, x ∈ l -> x ∈ s) -> OrderedSet_update s l = s).
Proof.
  split; [apply OrderedSet_update_filter|].
  split; [intros x; apply elem_of_OrderedSet_update|].
  split; [apply OrderedSet_update_NoDup|].
  intros Hall. rewrite OrderedSet_update_filter.
  rewrite filter_present_none; [apply app_nil_r|].
  intros x Hx. apply Hall, elem_of_fromkeys, Hx.
Qed.

(** X3.  Adding and discarding: an element added to a set that lacks it
    is removed again by [discard], which gives the set back; adding an
    element again after discarding it puts it at the end; adding twice
    is adding once. *)
Theorem add_discard_round_trip (s : OrderedSet) (e : Address) :
  (e ∉ s -> OrderedSet_discard (OrderedSet_add s e) e = s)
  /\ (NoDup s -> OrderedSet_add (OrderedSet_discard s e) e = OrderedSet_discard s e ++ [e])
  /\ OrderedSet_add (OrderedSet_add s e) e = OrderedSet_add s e.
Proof.
  split; [|split].
  - intros H. unfold OrderedSet_add. rewrite decide_False by exact H.
    unfold OrderedSet_discard. rewrite OrderedDict_del_last by exact H. reflexivity.
  - intros Hnd. unfold OrderedSet_add. rewrite decide_False; [reflexivity|].
    rewrite elem_of_OrderedSet_discard by exact Hnd. tauto.
  - unfold OrderedSet_add at 1. rewrite decide_True; [reflexivity|].
    apply elem_of_OrderedSet_add. right. reflexivity.
Qed.

(** X4.  [remove] and [discard] agree on a present element; on an
    absent one [remove] raises [ValueError] where [discard] returns the
    set unchanged. *)
Theorem remove_or_discard (s : OrderedSet) (e : Address) :
  (e ∈ s -> OrderedSet_remove s e = Return (OrderedSet_discard s e))
  /\ (e ∉ s ->
      (exists err, OrderedSet_remove s e = Raise err /\ exc_class err = ValueError)
      /\ OrderedSet_discard s e = s).
Proof.
  unfold OrderedSet_remove, OrderedSet_discard.
  destruct (OrderedDict_del s e) as [s'|] eqn:Hd.
  - split; [reflexivity|]. intros H. apply OrderedDict_del_None in H. congruence.
  - apply OrderedDict_del_None in Hd. split; [tauto|].
    intros _. split; [eexists; split; reflexivity|reflexivity].
Qed.

End OrderedSetOrder.

(** X2, witness: a reader already present and a new one listed twice. *)
Lemma update_appends_new_witness :
  NoDup [Sample.addr 9004]
  /\ OrderedSet_update [Sample.addr 9004]
       [Sample.addr 9005; Sample.addr 9004; Sample.addr 9005]
     = [Sample.addr 9004; Sample.addr 9005]
  /\ NoDup (OrderedSet_update [Sample.addr 9004]
              [Sample.addr 9005; Sample.addr 9004; Sample.addr 9005]).
Proof.
  assert (H : NoDup [Sample.addr 9004]) by apply NoDup_singleton.
  split; [exact H|]. split; [vm_compute; reflexivity|].
  apply (update_appends_new [Sample.addr 9004]
           [Sample.addr 9005; Sample.addr 9004; Sample.addr 9005]). exact H.
Defined.

(** X3, witness: a writer added to the readers and discarded again. *)
Lemma add_discard_round_trip_witness :
  (Sample.addr 9006 ∉ [Sample.addr 9004; Sample.addr 9005])
  /\ OrderedSet_discard
       (OrderedSet_add [Sample.addr 9004; Sample.addr 9005] (Sample.addr 9006))
       (Sample.addr 9006)
     = [Sample.addr 9004; Sample.addr 9005].
Proof.
  assert (H : Sample.addr 9006 ∉ [Sample.addr 9004; Sample.addr 9005]).
  { rewrite !not_elem_of_cons. repeat split; try discriminate. apply not_elem_of_nil. }
  split; [exact H|].
  apply (add_discard_round_trip [Sample.addr 9004; Sample.addr 9005] (Sample.addr 9006)).
  exact H.
Defined.

(** X4, witness: removing an address that is not in the set. *)
Lemma remove_or_discard_witness :
  (Sample.addr 9006 ∉ [Sample.addr 9004])
  /\ (exists err,
        OrderedSet_remove [Sample.addr 9004] (Sample.addr 9006) = Raise err
        /\ exc_class err = ValueError)
  /\ OrderedSet_discard [Sample.addr 9004] (Sample.addr 9006) = [Sample.addr 9004].
Proof.
  assert (H : Sample.addr 9006 ∉ [Sample.addr 9004]).
  { rewrite !not_elem_of_cons. repeat split; try discriminate. apply not_elem_of_nil. }
  split; [exact H|].
  apply (proj2 (remove_or_discard [Sample.addr 9004] (Sample.addr 9006))). exact H.
Defined.

(** ** Replacing the contents of a set object *)

Section Replacing.
Context `{Env : Environment}.

Lemma replace_runs (l src : loc) (s : State) :
  replace l src s
  = (Return tt,
     set_heap (<[l := fromkeys (if decide (src = l) then [] else elements src s)]>
                 (heap s)) s).
Proof.
  unfold replace, bind, store, modify, gets. cbn.
  rewrite elements_cleared. f_equal. unfold set_heap; cbn.
  rewrite list_insert_insert_eq. f_equal. f_equal.
  change (OrderedSet_update [] ?x) with (fromkeys x).
  rewrite fromkeys_idempotent. f_equal.
  case_decide as Hs.
  - subst. apply (elements_cleared l s).
  - apply (elements_store_ne l src [] s). congruence.
Qed.

(** X5.  [self.replace(other)] on two different set objects leaves the
    receiver with the elements of [other], in order and without
    duplicates, and touches no other object; [self.replace(self)]
    leaves the set empty, since the receiver is cleared before the
    argument is read. *)
Theorem replace_contents (l src : loc) (s : State) :
  (l < length (heap s))%nat ->
  exists s',
    replace l src s = (Return tt, s')
    /\ (forall l', l' <> l -> elements l' s' = elements l' s)
    /\ (src <> l -> elements l s' = fromkeys (elements src s))
    /\ (src <> l -> NoDup (elements src s) -> elements l s' = elements src s)
    /\ (src = l -> elements l s' = []).
Proof.
  intros Hl. rewrite replace_runs. eexists. split; [reflexivity|].
  split; [intros l' Hne; apply elements_store_ne; congruence|].
  rewrite elements_store_eq by exact Hl.
  split; [|split].
  - intros Hne. rewrite decide_False by exact Hne. reflexivity.
  - intros Hne Hnd. rewrite decide_False by exact Hne. apply fromkeys_distinct, Hnd.
  - intros ->. rewrite decide_True by reflexivity. reflexivity.
Qed.

End Replacing.

(** X5, witness: the readers of a refreshed pool replaced by themselves. *)
Lemma replace_contents_witness :
  exists s',
    replace 1%nat 1%nat (Sample.routed (Sample.addr 7687) false Sample.quiet)
    = (Return tt, s')
    /\ elements 1%nat s' = []
    /\ elements 0%nat s' = [Sample.addr 9001; Sample.addr 9002; Sample.addr 9003].
Proof.
  destruct (replace_contents 1%nat 1%nat
              (Sample.routed (Sample.addr 7687) false Sample.quiet))
    as (s' & Hrun & Hother & _ & _ & Hself); [cbn; lia|].
  exists s'. split; [exact Hrun|]. split; [apply Hself; reflexivity|].
  rewrite Hother by lia. reflexivity.
Defined.

(** ** More on freshness *)

Section Freshness.
Context `{Env : Environment}.





(** X8.  Once [last_updated_time + ttl] is reached by the clock, the
    table is fresh for no mode, whatever its role sets hold ([ttl] an
    integer that has a float). *)
Theorem is_fresh_expired (t : RoutingTable) (mode : string) (s : State) (z : Z) :
  ttl t = PInt z ->
  Z.abs z < float_limit ->
  last_updated_time t + z <= clock s ->
  is_fresh t mode s = (Return (FreshBool false), s).
Proof.
  intros Httl Hz Hexp. unfold is_fresh, bind, lift, timer, gets, ret.
  rewrite Httl, (add_ttl_int _ _ Hz).
  destruct (Z.leb_spec (last_updated_time t + z) (clock s)); [reflexivity|lia].
Qed.


End Freshness.



(** X8, witness: a table with [ttl = 0], read at the time it was made. *)
Lemma is_fresh_expired_witness :
  is_fresh (mkRoutingTable 0%nat 1%nat 2%nat 0 (PInt 0)) READ_ACCESS
           (Sample.routed (Sample.addr 7687) false Sample.quiet)
  = (Return (FreshBool false), Sample.routed (Sample.addr 7687) false Sample.quiet).
Proof.
  apply (is_fresh_expired _ READ_ACCESS _ 0);
    [reflexivity|vm_compute; reflexivity|cbn; lia].
Defined.


(** ** Updating the table *)

Section Updating.
Context `{Env : Environment}.

Lemma RoutingTable_update_runs (new : RoutingTable) (s : State) :
  let t := routing_table s in
  let h1 := <[routers t := fromkeys (if decide (routers new = routers t) then []
                                     else elements (routers new) s)]> (heap s) in
  let s1 := set_heap h1 s in
  let h2 := <[readers t := fromkeys (if decide (readers new = readers t) then []
                                     else elements (readers new) s1)]> h1 in
  let s2 := set_heap h2 s in
  let h3 := <[writers t := fromkeys (if decide (writers new = writers t) then []
                                     else elements (writers new) s2)]> h2 in
  RoutingTable_update new s
  = (Return tt,
     set_routing_table
       (mkRoutingTable (routers t) (readers t) (writers t) (clock s) (ttl new))
       (set_heap h3 s)).
Proof.
  cbn zeta. unfold RoutingTable_update, bind at 1, gets at 1. cbn beta iota.
  unfold bind at 1. rewrite replace_runs.
  unfold bind at 1. rewrite replace_runs.
  unfold bind at 1. rewrite replace_runs.
  reflexivity.
Qed.

Lemma elements_insert_ne (l l' : loc) (v : OrderedSet) (h : list OrderedSet) (s : State) :
  l <> l' -> elements l' (set_heap (<[l := v]> h) s) = elements l' (set_heap h s).
Proof. intros H. unfold elements; cbn. rewrite list_lookup_insert_ne by exact H. reflexivity. Qed.

Lemma elements_set_heap_same (l : loc) (s : State) :
  elements l (set_heap (heap s) s) = elements l s.
Proof. reflexivity. Qed.

Lemma lookup_insert3 (h : list (list Address)) (r rd w : nat) (R RD W : list Address) :
  (r < length h)%nat -> (rd < length h)%nat -> (w < length h)%nat ->
  r <> rd -> r <> w -> rd <> w ->
  let h3 := <[w := W]> (<[rd := RD]> (<[r := R]> h)) in
  h3 !! r = Some R /\ h3 !! rd = Some RD /\ h3 !! w = Some W
  /\ (forall l, l <> r -> l <> rd -> l <> w -> h3 !! l = h !! l).
Proof.
  intros Hr Hrd Hw H1 H2 H3. cbn zeta. repeat split.
  - rewrite list_lookup_insert_ne, list_lookup_insert_ne by congruence.
    apply list_lookup_insert_eq. exact Hr.
  - rewrite list_lookup_insert_ne by congruence.
    apply list_lookup_insert_eq. rewrite length_insert. exact Hrd.
  - apply list_lookup_insert_eq. rewrite !length_insert. exact Hw.
  - intros l L1 L2 L3. rewrite !list_lookup_insert_ne by congruence. reflexivity.
Qed.

Lemma separate_ne (new t : RoutingTable) :
  separate new t ->
  routers new <> routers t /\ routers new <> readers t /\ routers new <> writers t
  /\ readers new <> routers t /\ readers new <> readers t /\ readers new <> writers t
  /\ writers new <> routers t /\ writers new <> readers t /\ writers new <> writers t.
Proof.
  intros H. repeat split; apply H; rewrite !elem_of_cons; tauto.
Qed.

(** The state [update(new)] leaves when [new] shares no set object with
    the pool's table. *)
Lemma RoutingTable_update_form (new : RoutingTable) (x : State) :
  Forall NoDup (heap x) ->
  separate new (routing_table x) ->
  let t := routing_table x in
  RoutingTable_update new x
  = (Return tt,
     set_routing_table
       (mkRoutingTable (routers t) (readers t) (writers t) (clock x) (ttl new))
       (set_heap
          (<[writers t := elements (writers new) x]>
             (<[readers t := elements (readers new) x]>
                (<[routers t := elements (routers new) x]> (heap x)))) x)).
Proof.
  intros Hnd Hsep t.
  destruct (separate_ne _ _ Hsep) as (N1 & N2 & N3 & N4 & N5 & N6 & N7 & N8 & N9).
  fold t in N1, N2, N3, N4, N5, N6, N7, N8, N9.
  pose proof (RoutingTable_update_runs new x) as Hrun. cbn zeta in Hrun. fold t in Hrun.
  rewrite !decide_False in Hrun by assumption.
  rewrite !(elements_insert_ne _ (readers new)) in Hrun by congruence.
  rewrite !(elements_insert_ne _ (writers new)) in Hrun by congruence.
  rewrite !elements_set_heap_same in Hrun.
  rewrite !fromkeys_distinct in Hrun by (apply NoDup_elements, Hnd).
  exact Hrun.
Qed.

(** [update(new)] with a table [new] made of other set objects. *)
Lemma RoutingTable_update_spec (new : RoutingTable) (s : State) :
  wf s ->
  separate new (routing_table s) ->
  let t := routing_table s in
  exists s',
    RoutingTable_update new s = (Return tt, s')
    /\ same_sets t (routing_table s')
    /\ elements (routers t) s' = elements (routers new) s
    /\ elements (readers t) s' = elements (readers new) s
    /\ elements (writers t) s' = elements (writers new) s
    /\ ttl (routing_table s') = ttl new
    /\ last_updated_time (routing_table s') = clock s
    /\ (forall l, l <> routers t -> l <> readers t -> l <> writers t ->
          elements l s' = elements l s)
    /\ RoutingTable_update new s' = (Return tt, s').
Proof.
  intros (Hnd & Hr & Hrd & Hw & H1 & H2 & H3) Hsep t.
  destruct (separate_ne _ _ Hsep) as (N1 & N2 & N3 & N4 & N5 & N6 & N7 & N8 & N9).
  fold t in N1, N2, N3, N4, N5, N6, N7, N8, N9.
  pose proof (RoutingTable_update_form new s Hnd Hsep) as Hrun.
  cbn zeta in Hrun. fold t in Hrun.
  set (R := elements (routers new) s) in *.
  set (RD := elements (readers new) s) in *.
  set (W := elements (writers new) s) in *.
  destruct (lookup_insert3 (heap s) (routers t) (readers t) (writers t)
              R RD W Hr Hrd Hw H1 H2 H3) as (L1 & L2 & L3 & L4).
  cbn zeta in L1, L2, L3, L4.
  set (h3 := <[writers t := W]> (<[readers t := RD]> (<[routers t := R]> (heap s)))) in *.
  set (T := mkRoutingTable (routers t) (readers t) (writers t) (clock s) (ttl new)) in *.
  exists (set_routing_table T (set_heap h3 s)). split; [exact Hrun|].
  assert (E : forall l, elements l (set_routing_table T (set_heap h3 s))
                        = default [] (h3 !! l)) by reflexivity.
  split; [repeat split|].
  rewrite !E, L1, L2, L3. repeat (split; [reflexivity|]).
  split.
  { intros l ? ? ?. rewrite E, L4 by assumption. reflexivity. }
  pose proof (frame_RoutingTable_update new s _ _ Hrun) as (_ & _ & Hnd' & _).
  pose proof (RoutingTable_update_form new (set_routing_table T (set_heap h3 s))
                (Hnd' Hnd) Hsep) as Hrun2.
  cbn zeta in Hrun2. rewrite !E in Hrun2.
  rewrite !L4 in Hrun2 by assumption.
  change (default [] (heap s !! routers new)) with R in Hrun2.
  change (default [] (heap s !! readers new)) with RD in Hrun2.
  change (default [] (heap s !! writers new)) with W in Hrun2.
  cbn [routing_table set_routing_table set_heap heap routers readers writers
       clock T] in Hrun2.
  fold t in Hrun2.
  rewrite (list_insert_id h3 (routers t)) in Hrun2 by exact L1.
  rewrite (list_insert_id h3 (readers t)) in Hrun2 by exact L2.
  rewrite (list_insert_id h3 (writers t)) in Hrun2 by exact L3.
  exact Hrun2.
Qed.

(** X10.  [update(new)] with a table [new] made of other set objects
    replaces wholesale: the pool's routers, readers and writers end up
    with the contents of the sets of [new], [ttl] is taken from [new]
    and [last_updated_time] from the clock, the sets of [new] and every
    other set object are left alone, and applying the same update once
    more at the same clock reading changes nothing. *)
Theorem update_replaces_wholesale (new : RoutingTable) (s : State) :
  wf s ->
  separate new (routing_table s) ->
  let t := routing_table s in
  exists s',
    RoutingTable_update new s = (Return tt, s')
    /\ elements (routers t) s' = elements (routers new) s
    /\ elements (readers t) s' = elements (readers new) s
    /\ elements (writers t) s' = elements (writers new) s
    /\ ttl (routing_table s') = ttl new
    /\ last_updated_time (routing_table s') = clock s
    /\ (forall l, l <> routers t -> l <> readers t -> l <> writers t ->
          elements l s' = elements l s)
    /\ RoutingTable_update new s' = (Return tt, s').
Proof.
  intros Hwf Hsep t.
  destruct (RoutingTable_update_spec new s Hwf Hsep)
    as (s' & Hrun & _ & Hr & Hrd & Hw & Httl & Htime & Hother & Hidem).
  exists s'. repeat (split; [assumption|]). exact Hidem.
Qed.

End Updating.

Lemma s5_wf :
  wf (mkState (Env:=Sample.env)
        [[("192.168.1.1", 7687); ("192.168.1.2", 7687)]; [("192.168.1.3", 7687)]; [];
         [Sample.addr 9001; Sample.addr 9002; Sample.addr 9003];
         [Sample.addr 9004; Sample.addr 9005]; [Sample.addr 9006]]
        7 (Sample.addr 7687) (mkRoutingTable 0%nat 1%nat 2%nat 0 (PInt 0)) false
        (mkStrategy 0 0) Sample.quiet []).
Proof.
  split.
  - cbn. repeat (apply Forall_cons; split); try apply Forall_nil_2;
      apply (bool_decide_unpack _); vm_compute; exact I.
  - unfold live_table. cbn. repeat split; lia.
Qed.

Lemma s5_separate :
  separate (mkRoutingTable 3%nat 4%nat 5%nat 0 (PInt 300))
           (mkRoutingTable 0%nat 1%nat 2%nat 0 (PInt 0)).
Proof.
  intros l l'. cbn. rewrite !elem_of_cons, !elem_of_nil. lia.
Qed.

(** X10, witness: the update of the test suite, a table with two
    routers, one reader and [ttl = 0] updated from the valid record. *)
Lemma update_replaces_wholesale_witness :
  let s := mkState (Env:=Sample.env)
        [[("192.168.1.1", 7687); ("192.168.1.2", 7687)]; [("192.168.1.3", 7687)]; [];
         [Sample.addr 9001; Sample.addr 9002; Sample.addr 9003];
         [Sample.addr 9004; Sample.addr 9005]; [Sample.addr 9006]]
        7 (Sample.addr 7687) (mkRoutingTable 0%nat 1%nat 2%nat 0 (PInt 0)) false
        (mkStrategy 0 0) Sample.quiet [] in
  exists s',
    RoutingTable_update (mkRoutingTable 3%nat 4%nat 5%nat 0 (PInt 300)) s
    = (Return tt, s')
    /\ elements 0%nat s' = [Sample.addr 9001; Sample.addr 9002; Sample.addr 9003]
    /\ elements 1%nat s' = [Sample.addr 9004; Sample.addr 9005]
    /\ elements 2%nat s' = [Sample.addr 9006]
    /\ ttl (routing_table s') = PInt 300
    /\ last_updated_time (routing_table s') = 7.
Proof.
  intros s.
  destruct (update_replaces_wholesale (mkRoutingTable 3%nat 4%nat 5%nat 0 (PInt 300))
              s s5_wf s5_separate)
    as (s' & Hrun & Hr & Hrd & Hw & Httl & Htime & _).
  exists s'. split; [exact Hrun|].
  cbn in Hr, Hrd, Hw. rewrite Hr, Hrd, Hw, Httl, Htime. repeat split.
Defined.
